(** * The meatbag metronome: a shallow embedding of [arduino_sketch.ino]

    The sketch is one cooperative control loop.  Each call of [loop()] reads
    the millisecond clock and two digital pins, updates three global
    variables and writes decimal integers to the serial port.  The embedding
    below keeps the three globals in a record, passes the readings of one
    poll in as an environment, and returns the list of [Serial.print] calls
    the poll performed, in program order. *)

From Stdlib Require Import ZArith String Ascii DecimalString List Bool Lia.
Import ListNotations.
Local Open Scope Z_scope.

(** ** Machine integers *)

(** The sketch declares [timeElapsed] as [int].  The width of [int] is fixed
    by the board: 16 bits on the AVR boards, 32 bits on the ARM and ESP
    boards.  [unsigned long] is 32 bits on all of them. *)
Inductive int_width : Type := W16 | W32.

Definition int_bits (iw : int_width) : Z :=
  match iw with W16 => 16 | W32 => 32 end.

Definition ulong_modulus : Z := 2 ^ 32.

(** Value of an [unsigned long] expression: reduction modulo 2^32. *)
Definition to_ulong (z : Z) : Z := z mod ulong_modulus.

(** Conversion of an integer value to [int]: the value is reduced modulo
    2^w and read as a two's complement number (what gcc does for an
    out-of-range conversion to a signed type). *)
Definition to_int (iw : int_width) (z : Z) : Z :=
  let m := 2 ^ int_bits iw in
  let r := z mod m in
  if r <? m / 2 then r else r - m.

Definition INT_MAX (iw : int_width) : Z := 2 ^ (int_bits iw - 1) - 1.

(** ** Constants of the sketch *)

Definition PIN_MEATBAG_IN : Z := 2.
Definition PIN_MEATBAG_ACTIVATE : Z := 3.

Definition MSG_MEATBAG_DEACTIVATE : Z := 2.
Definition MSG_MEATBAG_ACTIVATE : Z := 3.
Definition MSG_EVENT_HEARTBEAT : Z := 4.
Definition MSG_EVENT_PROBE : Z := 5.

Definition MEATBAG_BAUD : Z := 4.
Definition CYCLE_TIMESPAN : Z := Z.quot 1000 MEATBAG_BAUD.
Definition EVENT_TIMESPAN : Z := Z.quot CYCLE_TIMESPAN 2.

(** Pin levels of the Arduino core ([LOW] is 0, [HIGH] is 1). *)
Definition LOW : Z := 0.
Definition HIGH : Z := 1.

Inductive level : Type := Low | High.

Definition level_int (l : level) : Z :=
  match l with Low => LOW | High => HIGH end.

(** ** Global variables *)

Record globals : Type := mkGlobals {
  isMeatbagTranscribing : Z;   (* int *)
  previousTimestamp : Z;       (* unsigned long *)
  previousEvent : Z            (* unsigned long *)
}.

(** The initialisers of the three globals. *)
Definition init : globals :=
  {| isMeatbagTranscribing := 0;
     previousTimestamp := 0;
     previousEvent := to_ulong MSG_EVENT_PROBE |}.

(** ** What one poll reads *)

(** [millis] is the clock reading of the poll; [pins] gives the level that
    [digitalRead] returns for a pin number during the poll. *)
Record readings : Type := mkReadings {
  millis : Z;
  pins : Z -> level
}.

Definition digitalRead (env : readings) (pin : Z) : Z :=
  level_int (pins env pin).

(** ** Serial output *)

(** One constructor per [Serial.print] call site of [loop()]. *)
Inductive emission : Type :=
| Heartbeat               (* Serial.print(MSG_EVENT_HEARTBEAT) *)
| Probe (value : Z)       (* Serial.print(value) *)
| Deactivate              (* Serial.print(MSG_MEATBAG_DEACTIVATE) *)
| Activate.               (* Serial.print(MSG_MEATBAG_ACTIVATE) *)

(** The [int] argument handed to [Serial.print] at each call site. *)
Definition printed (e : emission) : Z :=
  match e with
  | Heartbeat => MSG_EVENT_HEARTBEAT
  | Probe value => value
  | Deactivate => MSG_MEATBAG_DEACTIVATE
  | Activate => MSG_MEATBAG_ACTIVATE
  end.

(** [Serial.print(int)] writes the decimal representation, no separator. *)
Definition Serial_print (n : Z) : string :=
  NilZero.string_of_int (Z.to_int n).

Fixpoint wire (es : list emission) : string :=
  match es with
  | [] => EmptyString
  | e :: rest => (Serial_print (printed e) ++ wire rest)%string
  end.

(** ** The body of [loop()] *)

(** [int timeElapsed = currentTimestamp - previousTimestamp;] : the
    subtraction is done on [unsigned long], the result is stored in an
    [int]. *)
Definition timeElapsed (iw : int_width) (currentTimestamp previous : Z) : Z :=
  to_int iw (to_ulong (currentTimestamp - previous)).

(** Guard of the first [if]. *)
Definition heartbeat_guard (iw : int_width) (env : readings) (g : globals) : bool :=
  let currentTimestamp := to_ulong (millis env) in
  (EVENT_TIMESPAN <? timeElapsed iw currentTimestamp (previousTimestamp g))
  && (previousEvent g =? to_ulong MSG_EVENT_PROBE).

(** Guard of the [else if]. *)
Definition probe_guard (iw : int_width) (env : readings) (g : globals) : bool :=
  let currentTimestamp := to_ulong (millis env) in
  let te := timeElapsed iw currentTimestamp (previousTimestamp g) in
  (EVENT_TIMESPAN <? te)
  && (previousEvent g =? to_ulong MSG_EVENT_HEARTBEAT)
  && (isMeatbagTranscribing g =? 1)
  && (EVENT_TIMESPAN <? te).

(** The two timing branches. *)
Definition scheduler (iw : int_width) (env : readings) (g : globals)
  : globals * list emission :=
  let currentTimestamp := to_ulong (millis env) in
  if heartbeat_guard iw env g then
    ({| isMeatbagTranscribing := isMeatbagTranscribing g;
        previousTimestamp := currentTimestamp;
        previousEvent := to_ulong MSG_EVENT_HEARTBEAT |},
     [Heartbeat])
  else if probe_guard iw env g then
    let value := digitalRead env PIN_MEATBAG_IN in
    ({| isMeatbagTranscribing := isMeatbagTranscribing g;
        previousTimestamp := currentTimestamp;
        previousEvent := to_ulong MSG_EVENT_PROBE |},
     [Probe value])
  else (g, []).

(** The activation check at the end of the body. *)
Definition activation (env : readings) (g : globals) : globals * list emission :=
  let activate := digitalRead env PIN_MEATBAG_ACTIVATE in
  if (isMeatbagTranscribing g =? 1) && (activate =? LOW) then
    ({| isMeatbagTranscribing := 0;
        previousTimestamp := previousTimestamp g;
        previousEvent := previousEvent g |},
     [Deactivate])
  else if (isMeatbagTranscribing g =? 0) && (activate =? HIGH) then
    ({| isMeatbagTranscribing := 1;
        previousTimestamp := previousTimestamp g;
        previousEvent := previousEvent g |},
     [Activate])
  else (g, []).

Definition loop (iw : int_width) (env : readings) (g : globals)
  : globals * list emission :=
  let '(g1, out1) := scheduler iw env g in
  let '(g2, out2) := activation env g1 in
  (g2, out1 ++ out2).

(** ** Running the loop over a sequence of polls *)

(** Final globals and, for each poll, what it printed. *)
Fixpoint run (iw : int_width) (g : globals) (polls : list readings)
  : globals * list (list emission) :=
  match polls with
  | [] => (g, [])
  | env :: rest =>
      let '(g1, out) := loop iw env g in
      let '(g2, outs) := run iw g1 rest in
      (g2, out :: outs)
  end.

Definition final (iw : int_width) (g : globals) (polls : list readings) : globals :=
  fst (run iw g polls).

(** Everything printed during the run, in order. *)
Definition emitted (iw : int_width) (g : globals) (polls : list readings)
  : list emission :=
  List.concat (snd (run iw g polls)).

(** A poll with the given clock reading and pin levels. *)
Definition poll (t : Z) (activate_pin signal_pin : level) : readings :=
  {| millis := t;
     pins := fun pin => if pin =? PIN_MEATBAG_ACTIVATE then activate_pin
                        else signal_pin |}.

(** The scenario of the specification: clock readings 0, 130, 260, 390 with
    the activation pin constantly [HIGH] and the signal pin constantly 1. *)
Definition scenario : list readings :=
  map (fun t => poll t High High) [0; 130; 260; 390].

(** ** Phases *)

(** The specification names the two values of [previousEvent] as phases:
    HEARTBEAT_PENDING is "last event was PROBE, next due is HEARTBEAT" and
    PROBE_PENDING is "last event was HEARTBEAT, next due is PROBE". *)
Inductive phase : Type := HEARTBEAT_PENDING | PROBE_PENDING.

Definition phase_of (g : globals) : option phase :=
  if previousEvent g =? to_ulong MSG_EVENT_PROBE then Some HEARTBEAT_PENDING
  else if previousEvent g =? to_ulong MSG_EVENT_HEARTBEAT then Some PROBE_PENDING
  else None.

(** ** Classifying what was printed *)

Definition is_heartbeat (e : emission) : bool :=
  match e with Heartbeat => true | _ => false end.

Definition is_probe (e : emission) : bool :=
  match e with Probe _ => true | _ => false end.

(** Printed by one of the two timing branches. *)
Definition is_sched (e : emission) : bool :=
  match e with Heartbeat | Probe _ => true | _ => false end.

(** Printed by the activation check. *)
Definition is_act (e : emission) : bool :=
  match e with Deactivate | Activate => true | _ => false end.

Definition same_kind (a b : emission) : bool :=
  match a, b with
  | Heartbeat, Heartbeat => true
  | Probe _, Probe _ => true
  | Deactivate, Deactivate => true
  | Activate, Activate => true
  | _, _ => false
  end.

(** No two neighbours of the list are of the same kind. *)
Fixpoint alternates (l : list emission) : bool :=
  match l with
  | [] => true
  | a :: tl =>
      match tl with
      | [] => true
      | b :: _ => negb (same_kind a b) && alternates tl
      end
  end.

Fixpoint last_error {A : Type} (l : list A) : option A :=
  match l with
  | [] => None
  | a :: tl => match tl with [] => Some a | _ :: _ => last_error tl end
  end.

(** A probe carries a pin level. *)
Definition valid_emission (e : emission) : Prop :=
  match e with Probe v => v = LOW \/ v = HIGH | _ => True end.

(** ** Decoding the byte stream *)

(** The byte-by-byte reading of the stream the sketch produces: the comment
    at the top of the sketch reserves messages 0 and 1 for the sampled
    level, 2 to 4 are the message constants that are printed. *)
Definition decode_byte (c : ascii) : option emission :=
  if Ascii.eqb c "0" then Some (Probe 0)
  else if Ascii.eqb c "1" then Some (Probe 1)
  else if Ascii.eqb c "2" then Some Deactivate
  else if Ascii.eqb c "3" then Some Activate
  else if Ascii.eqb c "4" then Some Heartbeat
  else None.

Fixpoint decode (s : string) : option (list emission) :=
  match s with
  | EmptyString => Some []
  | String c rest =>
      match decode_byte c, decode rest with
      | Some e, Some es => Some (e :: es)
      | _, _ => None
      end
  end.

Fixpoint bytes_in (allowed : string) (s : string) : bool :=
  match s with
  | EmptyString => true
  | String c rest =>
      (existsb (Ascii.eqb c) (list_ascii_of_string allowed)) && bytes_in allowed rest
  end.

(** The grammar as the specification words it: a [5] followed by one bit is
    a probe, every other digit is an event on its own. *)
Inductive spec_token : Type :=
| SProbe (bit : Z)
| SEvent (code : Z).

Definition digit_value (c : ascii) : option Z :=
  let n := Z.of_nat (nat_of_ascii c) - 48 in
  if (0 <=? n) && (n <=? 5) then Some n else None.

Fixpoint spec_decode (s : string) : option (list spec_token) :=
  match s with
  | EmptyString => Some []
  | String c rest =>
      if Ascii.eqb c "5" then
        match rest with
        | EmptyString => None
        | String b rest' =>
            match digit_value b, spec_decode rest' with
            | Some bit, Some ts => if bit <=? 1 then Some (SProbe bit :: ts) else None
            | _, _ => None
            end
        end
      else
        match digit_value c, spec_decode rest with
        | Some d, Some ts => Some (SEvent d :: ts)
        | _, _ => None
        end
  end.

(** The event sequence in the specification's vocabulary
    (DEACTIVATE=2, ACTIVATE=3, HEARTBEAT=4, PROBE=5 carrying a bit). *)
Definition spec_token_of (e : emission) : spec_token :=
  match e with
  | Heartbeat => SEvent 4
  | Probe v => SProbe v
  | Deactivate => SEvent 2
  | Activate => SEvent 3
  end.

(** ** The activation rule as the specification words it *)

(** "If flag is true and pin reads LOW: set flag false, emit DEACTIVATE.  If
    flag is false and pin reads HIGH: set flag true, emit ACTIVATE.  No-op
    otherwise." *)
Definition spec_edge_rule (flag : bool) (pin : level) : bool * list emission :=
  match flag, pin with
  | true, Low => (false, [Deactivate])
  | false, High => (true, [Activate])
  | _, _ => (flag, [])
  end.

(** What the activation check prints on a poll, given the level of the
    activation pin at the poll before and at this poll. *)
Definition edge_emission (before now : level) : list emission :=
  match before, now with
  | Low, High => [Activate]
  | High, Low => [Deactivate]
  | _, _ => []
  end.

(** ** Clock readings *)

(** Clock readings that do not decrease, starting at or after [t], and that
    are values of an [unsigned long]. *)
Fixpoint clock_from (t : Z) (polls : list readings) : Prop :=
  match polls with
  | [] => True
  | env :: rest =>
      t <= millis env /\ millis env < ulong_modulus /\ clock_from (millis env) rest
  end.

(** The clock readings of the polls in which a heartbeat was printed. *)
Fixpoint heartbeat_times (iw : int_width) (g : globals) (polls : list readings)
  : list Z :=
  match polls with
  | [] => []
  | env :: rest =>
      let '(g1, out) := loop iw env g in
      if existsb is_heartbeat out
      then to_ulong (millis env) :: heartbeat_times iw g1 rest
      else heartbeat_times iw g1 rest
  end.

(** Neighbouring entries are more than [d] apart. *)
Fixpoint spaced (d : Z) (l : list Z) : Prop :=
  match l with
  | [] => True
  | a :: tl =>
      match tl with
      | [] => True
      | b :: _ => d < b - a /\ spaced d tl
      end
  end.

(** The activation pin reads [LOW] in every poll. *)
Definition never_activated (polls : list readings) : Prop :=
  Forall (fun env => pins env PIN_MEATBAG_ACTIVATE = Low) polls.

(** Globals that the sketch can hold: the flag is 0 or 1 and
    [previousEvent] is one of the two event constants. *)
Definition well_formed (g : globals) : Prop :=
  (isMeatbagTranscribing g = 0 \/ isMeatbagTranscribing g = 1) /\
  (previousEvent g = MSG_EVENT_HEARTBEAT \/ previousEvent g = MSG_EVENT_PROBE).

(** The three outcomes of the timing branches. *)
Inductive scheduler_outcome (iw : int_width) (env : readings) (g : globals)
  : globals * list emission -> Prop :=
| sched_heartbeat :
    heartbeat_guard iw env g = true ->
    scheduler_outcome iw env g
      (mkGlobals (isMeatbagTranscribing g) (to_ulong (millis env)) MSG_EVENT_HEARTBEAT,
       [Heartbeat])
| sched_probe :
    heartbeat_guard iw env g = false ->
    probe_guard iw env g = true ->
    scheduler_outcome iw env g
      (mkGlobals (isMeatbagTranscribing g) (to_ulong (millis env)) MSG_EVENT_PROBE,
       [Probe (level_int (pins env PIN_MEATBAG_IN))])
| sched_idle :
    heartbeat_guard iw env g = false ->
    probe_guard iw env g = false ->
    scheduler_outcome iw env g (g, []).

(** ** Clock readings of the polls that print *)

(** The clock readings of the polls in which an emission selected by [sel]
    was printed. *)
Fixpoint times_of (sel : emission -> bool) (iw : int_width) (g : globals)
  (polls : list readings) : list Z :=
  match polls with
  | [] => []
  | env :: rest =>
      let '(g1, out) := loop iw env g in
      if existsb sel out
      then to_ulong (millis env) :: times_of sel iw g1 rest
      else times_of sel iw g1 rest
  end.

(** ** Probes and the flag, read off the stream *)

(** Scans a stream of emissions with the state of the flag the stream
    announces (raised by an activation, lowered by a deactivation) and
    accepts it when every probe is met with the flag raised. *)
Fixpoint probes_gated (flag : bool) (l : list emission) : bool :=
  match l with
  | [] => true
  | Heartbeat :: tl => probes_gated flag tl
  | Probe _ :: tl => flag && probes_gated flag tl
  | Deactivate :: tl => probes_gated false tl
  | Activate :: tl => probes_gated true tl
  end.

(** ** Pins a poll reads *)

(** The [digitalRead] calls of one run of [loop()], in program order: the
    signal pin inside the probe branch, the activation pin always. *)
Definition pins_read (iw : int_width) (env : readings) (g : globals) : list Z :=
  (if heartbeat_guard iw env g then []
   else if probe_guard iw env g then [PIN_MEATBAG_IN]
   else [])
  ++ [PIN_MEATBAG_ACTIVATE].

(** ** [setup()] *)

(** Pin modes of the Arduino core. *)
Inductive pin_mode : Type := INPUT | OUTPUT | INPUT_PULLUP.

(** The calls [setup()] can make on the board. *)
Inductive board_call : Type :=
| Serial_begin (baud : Z)
| pinMode (pin : Z) (mode : pin_mode).

(** The body of [setup()], as the sequence of its calls. *)
Definition setup : list board_call :=
  [Serial_begin 9600;
   pinMode PIN_MEATBAG_IN INPUT;
   pinMode PIN_MEATBAG_ACTIVATE INPUT].

(** The mode a sequence of calls leaves a pin in: that of the last
    [pinMode] call on the pin, if there is one. *)
Fixpoint configured_mode (calls : list board_call) (pin : Z) : option pin_mode :=
  match calls with
  | [] => None
  | c :: rest =>
      match configured_mode rest pin with
      | Some m => Some m
      | None =>
          match c with
          | pinMode p m => if p =? pin then Some m else None
          | Serial_begin _ => None
          end
      end
  end.

(** The rate of the last [Serial.begin] call, if there is one. *)
Fixpoint configured_baud (calls : list board_call) : option Z :=
  match calls with
  | [] => None
  | c :: rest =>
      match configured_baud rest with
      | Some b => Some b
      | None => match c with Serial_begin b => Some b | pinMode _ _ => None end
      end
  end.

(** ** Moving the clock *)

(** The same readings with the clock moved on by [c] milliseconds. *)
Definition shift_clock (c : Z) (env : readings) : readings :=
  {| millis := millis env + c; pins := pins env |}.

(** The same globals with the stored timestamp moved on by [c]
    milliseconds, as an [unsigned long]. *)
Definition shift_schedule (c : Z) (g : globals) : globals :=
  {| isMeatbagTranscribing := isMeatbagTranscribing g;
     previousTimestamp := to_ulong (previousTimestamp g + c);
     previousEvent := previousEvent g |}.

(** * Basic facts *)

Lemma EVENT_TIMESPAN_value : EVENT_TIMESPAN = 125.
Proof. reflexivity. Qed.

Lemma to_ulong_small (z : Z) : 0 <= z < ulong_modulus -> to_ulong z = z.
Proof. intros H. unfold to_ulong. apply Z.mod_small. exact H. Qed.

(** Narrowing to [int] keeps every value up to [INT_MAX]. *)
Lemma to_int_small (iw : int_width) (z : Z) :
  0 <= z <= INT_MAX iw -> to_int iw z = z.
Proof.
  intros H. unfold to_int, INT_MAX in *.
  destruct iw; cbn [int_bits] in *;
    change (2 ^ 16) with 65536 in *; change (2 ^ 32) with 4294967296 in *;
    change (2 ^ (16 - 1)) with 32768 in *; change (2 ^ (32 - 1)) with 2147483648 in *;
    cbv zeta; rewrite Z.mod_small by lia;
    match goal with |- context [?a <? ?b] => destruct (Z.ltb_spec a b) end;
    try reflexivity;
    match goal with H0 : _ / 2 <= _ |- _ => revert H0 end;
    [change (65536 / 2) with 32768 | change (4294967296 / 2) with 2147483648]; lia.
Qed.

(** A narrowed value that is above a non-negative bound came from a value
    above that bound. *)
Lemma to_int_gt (iw : int_width) (k z : Z) :
  0 <= k -> 0 <= z -> k < to_int iw z -> k < z.
Proof.
  intros Hk Hz. unfold to_int. cbv zeta.
  assert (Hm : 0 < 2 ^ int_bits iw) by (destruct iw; reflexivity).
  pose proof (Z.mod_pos_bound z _ Hm) as Hr.
  pose proof (Z.mod_le z _ Hz Hm) as Hle.
  match goal with |- context [?a <? ?b] => destruct (Z.ltb_spec a b) end; lia.
Qed.

Lemma timeElapsed_gt (iw : int_width) (cur prev : Z) :
  0 <= prev <= cur -> cur < ulong_modulus ->
  EVENT_TIMESPAN < timeElapsed iw cur prev -> prev + EVENT_TIMESPAN < cur.
Proof.
  intros Hp Hc Hte. unfold timeElapsed in Hte.
  rewrite to_ulong_small in Hte by lia.
  apply to_int_gt in Hte; [lia | rewrite EVENT_TIMESPAN_value; lia | lia].
Qed.

(** * One poll *)

Lemma loop_unfold (iw : int_width) (env : readings) (g : globals) :
  loop iw env g =
  (fst (activation env (fst (scheduler iw env g))),
   snd (scheduler iw env g) ++ snd (activation env (fst (scheduler iw env g)))).
Proof.
  unfold loop. destruct (scheduler iw env g) as [g1 out1]. cbn [fst snd].
  destruct (activation env g1) as [g2 out2]. reflexivity.
Qed.

Lemma scheduler_cases (iw : int_width) (env : readings) (g : globals) :
  scheduler_outcome iw env g (scheduler iw env g).
Proof.
  unfold scheduler.
  destruct (heartbeat_guard iw env g) eqn:Hh; [apply sched_heartbeat; exact Hh |].
  destruct (probe_guard iw env g) eqn:Hp;
    [apply sched_probe | apply sched_idle]; assumption.
Qed.

Lemma heartbeat_guard_true (iw : int_width) (env : readings) (g : globals) :
  heartbeat_guard iw env g = true ->
  EVENT_TIMESPAN < timeElapsed iw (to_ulong (millis env)) (previousTimestamp g)
  /\ previousEvent g = MSG_EVENT_PROBE.
Proof.
  unfold heartbeat_guard. cbv zeta. intros H.
  apply andb_true_iff in H. destruct H as [H1 H2].
  apply Z.ltb_lt in H1. apply Z.eqb_eq in H2. split; assumption.
Qed.

Lemma probe_guard_true (iw : int_width) (env : readings) (g : globals) :
  probe_guard iw env g = true ->
  EVENT_TIMESPAN < timeElapsed iw (to_ulong (millis env)) (previousTimestamp g)
  /\ previousEvent g = MSG_EVENT_HEARTBEAT
  /\ isMeatbagTranscribing g = 1.
Proof.
  unfold probe_guard. cbv zeta. intros H.
  repeat (apply andb_true_iff in H; destruct H as [H ?]).
  apply Z.ltb_lt in H.
  repeat match goal with E : (_ =? _) = true |- _ => apply Z.eqb_eq in E end.
  repeat split; assumption.
Qed.

(** The two guards exclude each other. *)
Lemma probe_guard_excludes_heartbeat (iw : int_width) (env : readings) (g : globals) :
  probe_guard iw env g = true -> heartbeat_guard iw env g = false.
Proof.
  intros H. apply probe_guard_true in H. destruct H as (_ & He & _).
  unfold heartbeat_guard. cbv zeta. rewrite He.
  apply andb_false_iff. right. reflexivity.
Qed.

Lemma scheduler_flag (iw : int_width) (env : readings) (g : globals) :
  isMeatbagTranscribing (fst (scheduler iw env g)) = isMeatbagTranscribing g.
Proof. destruct (scheduler_cases iw env g); reflexivity. Qed.

Lemma scheduler_prints_sched (iw : int_width) (env : readings) (g : globals) :
  filter is_act (snd (scheduler iw env g)) = [] /\
  filter is_sched (snd (scheduler iw env g)) = snd (scheduler iw env g).
Proof. destruct (scheduler_cases iw env g); split; reflexivity. Qed.

(** The outcomes of the activation check, by flag and pin level. *)
Lemma activation_flag_set (env : readings) (g : globals) :
  isMeatbagTranscribing g = 1 ->
  activation env g =
  match pins env PIN_MEATBAG_ACTIVATE with
  | Low => (mkGlobals 0 (previousTimestamp g) (previousEvent g), [Deactivate])
  | High => (g, [])
  end.
Proof.
  intros Hf. unfold activation, digitalRead. cbv zeta. rewrite Hf.
  destruct (pins env PIN_MEATBAG_ACTIVATE); reflexivity.
Qed.

Lemma activation_flag_clear (env : readings) (g : globals) :
  isMeatbagTranscribing g = 0 ->
  activation env g =
  match pins env PIN_MEATBAG_ACTIVATE with
  | Low => (g, [])
  | High => (mkGlobals 1 (previousTimestamp g) (previousEvent g), [Activate])
  end.
Proof.
  intros Hf. unfold activation, digitalRead. cbv zeta. rewrite Hf.
  destruct (pins env PIN_MEATBAG_ACTIVATE); reflexivity.
Qed.

Lemma activation_keeps_schedule (env : readings) (g : globals) :
  previousTimestamp (fst (activation env g)) = previousTimestamp g /\
  previousEvent (fst (activation env g)) = previousEvent g.
Proof.
  unfold activation. cbv zeta.
  destruct (_ && _); [split; reflexivity |].
  destruct (_ && _); split; reflexivity.
Qed.

Lemma activation_prints_act (env : readings) (g : globals) :
  filter is_sched (snd (activation env g)) = [] /\
  filter is_act (snd (activation env g)) = snd (activation env g).
Proof.
  unfold activation. cbv zeta.
  destruct (_ && _); [split; reflexivity |].
  destruct (_ && _); split; reflexivity.
Qed.

(** After a poll the flag is the level the activation pin had in it. *)
Lemma loop_flag (iw : int_width) (env : readings) (g : globals) :
  isMeatbagTranscribing g = 0 \/ isMeatbagTranscribing g = 1 ->
  isMeatbagTranscribing (fst (loop iw env g)) =
  level_int (pins env PIN_MEATBAG_ACTIVATE).
Proof.
  intros Hf. rewrite loop_unfold. cbn [fst].
  pose proof (scheduler_flag iw env g) as Hs.
  destruct Hf as [Hf | Hf]; rewrite Hf in Hs.
  - rewrite (activation_flag_clear _ _ Hs).
    destruct (pins env PIN_MEATBAG_ACTIVATE); cbn; [exact Hs | reflexivity].
  - rewrite (activation_flag_set _ _ Hs).
    destruct (pins env PIN_MEATBAG_ACTIVATE); cbn; [reflexivity | exact Hs].
Qed.

Lemma loop_sched_part (iw : int_width) (env : readings) (g : globals) :
  filter is_sched (snd (loop iw env g)) = snd (scheduler iw env g).
Proof.
  rewrite loop_unfold. cbn [snd]. rewrite filter_app.
  rewrite (proj2 (scheduler_prints_sched iw env g)).
  rewrite (proj1 (activation_prints_act env _)). apply app_nil_r.
Qed.

Lemma loop_act_part (iw : int_width) (env : readings) (g : globals) :
  filter is_act (snd (loop iw env g)) =
  snd (activation env (fst (scheduler iw env g))).
Proof.
  rewrite loop_unfold. cbn [snd]. rewrite filter_app.
  rewrite (proj1 (scheduler_prints_sched iw env g)).
  rewrite (proj2 (activation_prints_act env _)). reflexivity.
Qed.

Lemma loop_schedule (iw : int_width) (env : readings) (g : globals) :
  previousTimestamp (fst (loop iw env g)) = previousTimestamp (fst (scheduler iw env g)) /\
  previousEvent (fst (loop iw env g)) = previousEvent (fst (scheduler iw env g)).
Proof. rewrite loop_unfold. cbn [fst]. apply activation_keeps_schedule. Qed.

Lemma init_well_formed : well_formed init.
Proof. split; [left | right]; reflexivity. Qed.

Lemma loop_well_formed (iw : int_width) (env : readings) (g : globals) :
  well_formed g -> well_formed (fst (loop iw env g)).
Proof.
  intros [Hf He]. split.
  - rewrite (loop_flag iw env g Hf).
    destruct (pins env PIN_MEATBAG_ACTIVATE); [left | right]; reflexivity.
  - rewrite (proj2 (loop_schedule iw env g)).
    destruct (scheduler_cases iw env g); cbn [fst previousEvent];
      [left | right | exact He]; reflexivity.
Qed.

(** * Runs *)

Lemma emitted_cons (iw : int_width) (g : globals) (env : readings) (rest : list readings) :
  emitted iw g (env :: rest) =
  snd (loop iw env g) ++ emitted iw (fst (loop iw env g)) rest.
Proof.
  unfold emitted. cbn [run]. destruct (loop iw env g) as [g1 out].
  cbn [fst snd]. destruct (run iw g1 rest) as [g2 outs]. reflexivity.
Qed.

Lemma final_cons (iw : int_width) (g : globals) (env : readings) (rest : list readings) :
  final iw g (env :: rest) = final iw (fst (loop iw env g)) rest.
Proof.
  unfold final. cbn [run]. destruct (loop iw env g) as [g1 out].
  cbn [fst]. destruct (run iw g1 rest) as [g2 outs]. reflexivity.
Qed.

Lemma final_well_formed (iw : int_width) (polls : list readings) (g : globals) :
  well_formed g -> well_formed (final iw g polls).
Proof.
  revert g. induction polls as [| env rest IH]; intros g Hg.
  - exact Hg.
  - rewrite final_cons. apply IH. apply loop_well_formed. exact Hg.
Qed.

Lemma heartbeat_times_cons (iw : int_width) (g : globals) (env : readings)
  (rest : list readings) :
  heartbeat_times iw g (env :: rest) =
  if existsb is_heartbeat (snd (loop iw env g))
  then to_ulong (millis env) :: heartbeat_times iw (fst (loop iw env g)) rest
  else heartbeat_times iw (fst (loop iw env g)) rest.
Proof. cbn [heartbeat_times]. destruct (loop iw env g). reflexivity. Qed.

(** * Startup state *)

(** C5 (as amended).  At startup the last timestamp is 0, the flag is 0 and
    [previousEvent] is [MSG_EVENT_PROBE]: the last event counts as a probe
    and the next one due is a heartbeat, which is the phase the
    specification calls HEARTBEAT_PENDING. *)
Theorem startup_state :
  previousTimestamp init = 0 /\
  isMeatbagTranscribing init = 0 /\
  previousEvent init = MSG_EVENT_PROBE /\
  phase_of init = Some HEARTBEAT_PENDING.
Proof. repeat split. Qed.

(** C5 (as stated) fails: the startup phase is not PROBE_PENDING, the last
    event is not a heartbeat, and the first timing event from startup is a
    heartbeat even with the flag raised. *)
Lemma startup_phase_not_probe_pending :
  phase_of init <> Some PROBE_PENDING /\
  previousEvent init <> MSG_EVENT_HEARTBEAT /\
  filter is_sched (emitted W16 init [poll 0 High High; poll 130 High High]) = [Heartbeat].
Proof.
  split; [| split].
  - discriminate.
  - discriminate.
  - reflexivity.
Qed.

(** * The scenario *)

(** C3 (as amended).  From startup, the clock readings 0, 130, 260, 390 with
    both pins constantly high print ACTIVATE, then HEARTBEAT at 130, then
    the probe at 260 as the single byte 1, then HEARTBEAT at 390, and
    nothing else: the stream is 3, 4, 1, 4. *)
Theorem scenario_output (iw : int_width) :
  snd (run iw init scenario) = [[Activate]; [Heartbeat]; [Probe 1]; [Heartbeat]] /\
  map wire (snd (run iw init scenario)) = ["3"; "4"; "1"; "4"]%string /\
  wire (emitted iw init scenario) = "3414"%string.
Proof. destruct iw; repeat split. Qed.

(** C3 (as stated) fails: the probe at 260 is not on the wire as 5, 1. *)
Lemma scenario_probe_has_no_5 :
  map wire (snd (run W16 init scenario)) <> ["3"; "4"; "51"; "4"]%string /\
  map wire (snd (run W32 init scenario)) <> ["3"; "4"; "51"; "4"]%string.
Proof. split; vm_compute; discriminate. Qed.

(** * The probe on the wire *)

(** C1 (as amended).  In a poll in which the probe branch fires, the branch
    prints the sampled level of the signal pin and nothing else: one byte,
    0 or 1, with no 5 before it.  The only other byte the poll can print is
    the 2 of a deactivation, after the bit.  The 5 of [MSG_EVENT_PROBE] is
    not printed: it is what the branch stores in [previousEvent], next to
    the clock reading of the poll in [previousTimestamp], and the poll ends
    with both in place. *)
Theorem probe_prints_bit_only (iw : int_width) (env : readings) (g : globals) :
  probe_guard iw env g = true ->
  let bit := match pins env PIN_MEATBAG_IN with Low => "0" | High => "1" end%string in
  snd (scheduler iw env g) = [Probe (digitalRead env PIN_MEATBAG_IN)] /\
  wire (snd (scheduler iw env g)) = bit /\
  wire (snd (loop iw env g)) =
    (bit ++ match pins env PIN_MEATBAG_ACTIVATE with Low => "2" | High => "" end)%string /\
  fst (scheduler iw env g) =
    mkGlobals (isMeatbagTranscribing g) (to_ulong (millis env)) MSG_EVENT_PROBE /\
  previousEvent (fst (loop iw env g)) = MSG_EVENT_PROBE /\
  previousTimestamp (fst (loop iw env g)) = to_ulong (millis env).
Proof.
  intros Hp bit.
  pose proof (probe_guard_excludes_heartbeat _ _ _ Hp) as Hh.
  assert (Hs : scheduler iw env g =
               (mkGlobals (isMeatbagTranscribing g) (to_ulong (millis env)) MSG_EVENT_PROBE,
                [Probe (digitalRead env PIN_MEATBAG_IN)])).
  { unfold scheduler. cbv zeta. rewrite Hh, Hp. reflexivity. }
  destruct (probe_guard_true _ _ _ Hp) as (_ & _ & Hf).
  destruct (loop_schedule iw env g) as [Hts Hev].
  rewrite Hts, Hev, loop_unfold, Hs. cbn [fst snd].
  rewrite activation_flag_set by exact Hf.
  subst bit. unfold digitalRead.
  destruct (pins env PIN_MEATBAG_IN), (pins env PIN_MEATBAG_ACTIVATE);
    repeat split.
Qed.

Lemma probe_prints_bit_only_witness :
  probe_guard W16 (poll 260 High High) (mkGlobals 1 130 MSG_EVENT_HEARTBEAT) = true /\
  wire (snd (loop W16 (poll 260 High High) (mkGlobals 1 130 MSG_EVENT_HEARTBEAT)))
  = "1"%string /\
  previousEvent (fst (loop W16 (poll 260 High High) (mkGlobals 1 130 MSG_EVENT_HEARTBEAT)))
  = 5.
Proof.
  split; [reflexivity |].
  pose (H := probe_prints_bit_only W16 (poll 260 High High)
               (mkGlobals 1 130 MSG_EVENT_HEARTBEAT) eq_refl).
  split.
  - exact (proj1 (proj2 (proj2 H))).
  - exact (proj1 (proj2 (proj2 (proj2 (proj2 H))))).
Defined.

(** C1 (as stated) fails: in the third poll of the scenario the probe branch
    fires with the signal pin high, and the poll writes the single byte 1,
    not 5 followed by 1. *)
Lemma probe_not_prefixed_by_5 :
  let g := final W16 init [poll 0 High High; poll 130 High High] in
  let env := poll 260 High High in
  probe_guard W16 env g = true /\
  wire (snd (loop W16 env g)) = "1"%string /\
  wire (snd (loop W16 env g)) <> "51"%string.
Proof. cbv zeta. split; [| split]; vm_compute; [reflexivity | reflexivity | discriminate]. Qed.

(** * Alternation of heartbeats and probes *)

(** The first timing event of a run is the one [previousEvent] makes due. *)
Lemma sched_events_alternate_from (iw : int_width) (polls : list readings) :
  forall g : globals,
    alternates (filter is_sched (emitted iw g polls)) = true /\
    forall e, hd_error (filter is_sched (emitted iw g polls)) = Some e ->
              (e = Heartbeat /\ previousEvent g = MSG_EVENT_PROBE) \/
              (exists v, e = Probe v /\ previousEvent g = MSG_EVENT_HEARTBEAT).
Proof.
  induction polls as [| env rest IH]; intros g.
  - split; [reflexivity | discriminate].
  - rewrite emitted_cons, filter_app, loop_sched_part.
    specialize (IH (fst (loop iw env g))).
    destruct IH as [IHalt IHhd].
    rewrite (proj2 (loop_schedule iw env g)) in IHhd.
    set (tl := filter is_sched (emitted iw (fst (loop iw env g)) rest)) in *.
    destruct (scheduler_cases iw env g) as [Hh | Hh Hp | Hh Hp];
      cbn [fst snd previousEvent app] in *.
    + apply heartbeat_guard_true in Hh. destruct Hh as [_ He]. split.
      * destruct tl as [| b tl']; [reflexivity |].
        destruct (IHhd b eq_refl) as [[_ Hbad] | [v [Hb _]]]; [discriminate |].
        subst b. cbn [alternates same_kind negb andb]. exact IHalt.
      * intros e Hhd. injection Hhd as <-. left. split; [reflexivity | exact He].
    + apply probe_guard_true in Hp. destruct Hp as (_ & He & _). split.
      * destruct tl as [| b tl']; [reflexivity |].
        destruct (IHhd b eq_refl) as [[Hb _] | [v [_ Hbad]]]; [| discriminate].
        subst b. cbn [alternates same_kind negb andb]. exact IHalt.
      * intros e Hhd. injection Hhd as <-. right. eexists. split; [reflexivity | exact He].
    + split; assumption.
Qed.

(** C4.  For every sequence of polls (whatever the clock readings, so in
    particular for increasing ones) the heartbeats and probes that the two
    timing branches print alternate strictly: no two heartbeats and no two
    probes are printed back to back. *)
Theorem heartbeats_and_probes_alternate (iw : int_width) (g : globals)
  (polls : list readings) :
  alternates (filter is_sched (emitted iw g polls)) = true.
Proof. apply sched_events_alternate_from. Qed.

(** * Alternation of activations and deactivations *)

Lemma last_error_some {A : Type} (l : list A) :
  forall a : A, exists x, last_error (a :: l) = Some x.
Proof.
  induction l as [| b l IHl]; intros a.
  - exists a. reflexivity.
  - destruct (IHl b) as [x Hx]. exists x. exact Hx.
Qed.

Lemma last_error_cons {A : Type} (a : A) (l : list A) :
  last_error (a :: l) = match last_error l with Some x => Some x | None => Some a end.
Proof.
  destruct l as [| b l]; [reflexivity |].
  destruct (last_error_some l b) as [x Hx].
  change (last_error (a :: b :: l)) with (last_error (b :: l)).
  rewrite Hx. reflexivity.
Qed.

Lemma act_events_alternate_from (iw : int_width) (polls : list readings) :
  forall g : globals,
    isMeatbagTranscribing g = 0 \/ isMeatbagTranscribing g = 1 ->
    let acts := filter is_act (emitted iw g polls) in
    alternates acts = true /\
    (forall e, hd_error acts = Some e ->
               (e = Activate /\ isMeatbagTranscribing g = 0) \/
               (e = Deactivate /\ isMeatbagTranscribing g = 1)) /\
    isMeatbagTranscribing (final iw g polls) =
      match last_error acts with
      | Some Activate => 1
      | Some _ => 0
      | None => isMeatbagTranscribing g
      end.
Proof.
  induction polls as [| env rest IH]; intros g Hg; cbv zeta.
  - split; [reflexivity | split; [discriminate | reflexivity]].
  - rewrite emitted_cons, filter_app, loop_act_part, final_cons.
    pose proof (loop_flag iw env g Hg) as Hflag.
    assert (Hg1 : isMeatbagTranscribing (fst (loop iw env g)) = 0 \/
                  isMeatbagTranscribing (fst (loop iw env g)) = 1)
      by (rewrite Hflag; destruct (pins env PIN_MEATBAG_ACTIVATE); [left | right]; reflexivity).
    specialize (IH (fst (loop iw env g)) Hg1). cbv zeta in IH.
    destruct IH as (IHalt & IHhd & IHlast).
    rewrite IHlast. rewrite Hflag in IHhd |- *.
    set (tl := filter is_act (emitted iw (fst (loop iw env g)) rest)) in *.
    pose proof (scheduler_flag iw env g) as Hs.
    destruct Hg as [Hg | Hg]; rewrite Hg in Hs;
      [rewrite (activation_flag_clear _ _ Hs) | rewrite (activation_flag_set _ _ Hs)];
      destruct (pins env PIN_MEATBAG_ACTIVATE); cbn [snd app level_int] in *.
    + rewrite Hg. repeat split; try assumption.
    + split; [| split].
      * destruct tl as [| b tl']; [reflexivity |].
        destruct (IHhd b eq_refl) as [[_ Hbad] | [Hb _]]; [discriminate |].
        subst b. cbn [alternates same_kind negb andb]. exact IHalt.
      * intros e Hhd. injection Hhd as <-. left. split; [reflexivity | exact Hg].
      * rewrite last_error_cons. destruct (last_error tl) as [[] |]; reflexivity.
    + split; [| split].
      * destruct tl as [| b tl']; [reflexivity |].
        destruct (IHhd b eq_refl) as [[Hb _] | [_ Hbad]]; [| discriminate].
        subst b. cbn [alternates same_kind negb andb]. exact IHalt.
      * intros e Hhd. injection Hhd as <-. right. split; [reflexivity | exact Hg].
      * rewrite last_error_cons. destruct (last_error tl) as [[] |]; reflexivity.
    + rewrite Hg. repeat split; try assumption.
Qed.

(** C10.  From startup, for every sequence of polls: the activations and
    deactivations printed alternate strictly, the first of them is never a
    deactivation, and the flag after the run is 1 exactly when the last of
    them was an activation (0 when there was none or it was a
    deactivation). *)
Theorem activations_alternate (iw : int_width) (polls : list readings) :
  let acts := filter is_act (emitted iw init polls) in
  alternates acts = true /\
  hd_error acts <> Some Deactivate /\
  isMeatbagTranscribing (final iw init polls) =
    match last_error acts with Some Activate => 1 | _ => 0 end.
Proof.
  cbv zeta.
  destruct (act_events_alternate_from iw polls init (or_introl eq_refl))
    as (Halt & Hhd & Hlast).
  split; [exact Halt | split].
  - intros Habs. destruct (Hhd _ Habs) as [[Hbad _] | [_ Hbad]]; discriminate.
  - rewrite Hlast. destruct (last_error _) as [[] |]; reflexivity.
Qed.

(** * The activation check *)

(** C7.  In every state the sketch reaches from startup, a poll applies
    the rule of the specification to the flag and the level of the
    activation pin: the flag becomes the rule's flag and exactly the
    rule's event is printed by the activation check, as the number 2 for a
    deactivation and the number 3 for an activation.  Consequently, over
    two polls in a row, a LOW to HIGH change of the pin prints one
    ACTIVATE (one 3), a HIGH to LOW change prints one DEACTIVATE (one 2),
    and a sustained level prints nothing. *)
Theorem activation_check_rule (iw : int_width) (polls : list readings)
  (p q : readings) :
  let g := final iw init polls in
  let flag := isMeatbagTranscribing g =? 1 in
  isMeatbagTranscribing g = Z.b2z flag /\
  filter is_act (snd (loop iw q g)) =
    snd (spec_edge_rule flag (pins q PIN_MEATBAG_ACTIVATE)) /\
  isMeatbagTranscribing (fst (loop iw q g)) =
    Z.b2z (fst (spec_edge_rule flag (pins q PIN_MEATBAG_ACTIVATE))) /\
  filter is_act (snd (loop iw q (fst (loop iw p g)))) =
    edge_emission (pins p PIN_MEATBAG_ACTIVATE) (pins q PIN_MEATBAG_ACTIVATE) /\
  map printed (filter is_act (snd (loop iw q g))) =
    match flag, pins q PIN_MEATBAG_ACTIVATE with
    | true, Low => [2]
    | false, High => [3]
    | _, _ => []
    end /\
  map printed (filter is_act (snd (loop iw q (fst (loop iw p g))))) =
    match pins p PIN_MEATBAG_ACTIVATE, pins q PIN_MEATBAG_ACTIVATE with
    | Low, High => [3]
    | High, Low => [2]
    | _, _ => []
    end /\
  wire (filter is_act (snd (loop iw q (fst (loop iw p g))))) =
    match pins p PIN_MEATBAG_ACTIVATE, pins q PIN_MEATBAG_ACTIVATE with
    | Low, High => "3"
    | High, Low => "2"
    | _, _ => ""
    end%string.
Proof.
  cbv zeta.
  pose proof (final_well_formed iw polls init init_well_formed) as [Hf _].
  set (g := final iw init polls) in *.
  assert (Hrule : forall (env : readings) (h : globals),
             isMeatbagTranscribing h = 0 \/ isMeatbagTranscribing h = 1 ->
             filter is_act (snd (loop iw env h)) =
             snd (spec_edge_rule (isMeatbagTranscribing h =? 1)
                    (pins env PIN_MEATBAG_ACTIVATE))).
  { intros env h Hh. rewrite loop_act_part.
    pose proof (scheduler_flag iw env h) as Hs.
    destruct Hh as [Hh | Hh]; rewrite Hh in Hs |- *;
      [rewrite (activation_flag_clear _ _ Hs) | rewrite (activation_flag_set _ _ Hs)];
      destruct (pins env PIN_MEATBAG_ACTIVATE); reflexivity. }
  assert (Hedge : filter is_act (snd (loop iw q (fst (loop iw p g)))) =
                  edge_emission (pins p PIN_MEATBAG_ACTIVATE)
                    (pins q PIN_MEATBAG_ACTIVATE)).
  { rewrite Hrule.
    + rewrite (loop_flag iw p g Hf).
      destruct (pins p PIN_MEATBAG_ACTIVATE), (pins q PIN_MEATBAG_ACTIVATE);
        reflexivity.
    + rewrite (loop_flag iw p g Hf).
      destruct (pins p PIN_MEATBAG_ACTIVATE); [left | right]; reflexivity. }
  split; [| split; [| split; [| split; [| split; [| split]]]]].
  - destruct Hf as [Hf | Hf]; rewrite Hf; reflexivity.
  - apply Hrule. exact Hf.
  - rewrite (loop_flag iw q g Hf).
    destruct Hf as [Hf | Hf]; rewrite Hf;
      destruct (pins q PIN_MEATBAG_ACTIVATE); reflexivity.
  - exact Hedge.
  - rewrite (Hrule q g Hf).
    destruct (isMeatbagTranscribing g =? 1), (pins q PIN_MEATBAG_ACTIVATE);
      reflexivity.
  - rewrite Hedge.
    destruct (pins p PIN_MEATBAG_ACTIVATE), (pins q PIN_MEATBAG_ACTIVATE);
      reflexivity.
  - rewrite Hedge.
    destruct (pins p PIN_MEATBAG_ACTIVATE), (pins q PIN_MEATBAG_ACTIVATE);
      reflexivity.
Qed.

(** * Polling with the flag down *)

(** With the flag down and a heartbeat as the last event, nothing is
    printed for as long as the activation pin stays low. *)
Lemma silent_after_heartbeat (iw : int_width) (polls : list readings) :
  forall g : globals,
    isMeatbagTranscribing g = 0 ->
    previousEvent g = MSG_EVENT_HEARTBEAT ->
    never_activated polls ->
    emitted iw g polls = [] /\ isMeatbagTranscribing (final iw g polls) = 0.
Proof.
  induction polls as [| env rest IH]; intros g Hf He Hlow.
  - split; [reflexivity | exact Hf].
  - inversion Hlow as [| ? ? Hpin Hrest]; subst.
    rewrite emitted_cons, final_cons.
    assert (Hloop : loop iw env g = (g, [])).
    { rewrite loop_unfold.
      destruct (scheduler_cases iw env g) as [Hh | Hh Hp | Hh Hp]; cbn [fst snd].
      - apply heartbeat_guard_true in Hh. destruct Hh as [_ Hbad].
        rewrite He in Hbad. discriminate.
      - apply probe_guard_true in Hp. destruct Hp as (_ & _ & Hbad).
        rewrite Hf in Hbad. discriminate.
      - rewrite (activation_flag_clear _ _ Hf), Hpin. reflexivity. }
    rewrite Hloop. cbn [fst snd app]. apply IH; assumption.
Qed.

(** With the flag down and the activation pin low, a poll prints the
    heartbeat when the heartbeat guard holds and nothing otherwise. *)
Lemma loop_flag_down (iw : int_width) (env : readings) (g : globals) :
  isMeatbagTranscribing g = 0 ->
  pins env PIN_MEATBAG_ACTIVATE = Low ->
  loop iw env g =
  if heartbeat_guard iw env g
  then (mkGlobals 0 (to_ulong (millis env)) MSG_EVENT_HEARTBEAT, [Heartbeat])
  else (g, []).
Proof.
  intros Hf Hpin. rewrite loop_unfold.
  destruct (scheduler_cases iw env g) as [Hh | Hh Hp | Hh Hp]; rewrite Hh;
    cbn [fst snd].
  - rewrite activation_flag_clear by exact Hf. rewrite Hpin, Hf. reflexivity.
  - apply probe_guard_true in Hp. destruct Hp as (_ & _ & Hbad).
    rewrite Hf in Hbad. discriminate.
  - rewrite (activation_flag_clear _ _ Hf), Hpin. reflexivity.
Qed.

Lemma flag_stays_down (iw : int_width) (polls : list readings) :
  forall g : globals,
    isMeatbagTranscribing g = 0 ->
    never_activated polls ->
    isMeatbagTranscribing (final iw g polls) = 0.
Proof.
  induction polls as [| env rest IH]; intros g Hf Hlow; [exact Hf |].
  inversion Hlow as [| ? ? Hpin Hrest]; subst.
  rewrite final_cons. apply IH; [| exact Hrest].
  rewrite (loop_flag iw env g (or_introl Hf)), Hpin. reflexivity.
Qed.

(** C2 (as amended).  While the activation pin never reads HIGH and the
    flag is down, the flag stays down and no probe is printed whatever the
    elapsed time.  Each poll prints exactly a heartbeat when its elapsed
    time exceeds [EVENT_TIMESPAN] and the last timing event is a probe (the
    heartbeat branch does not look at the flag), and prints nothing
    otherwise.  Heartbeats do not continue: the heartbeat leaves
    [previousEvent] at HEARTBEAT, so the whole output is empty or a single
    heartbeat, and it is empty when the last timing event was already a
    heartbeat. *)
Theorem flag_down_output (iw : int_width) (polls : list readings) (g : globals) :
  isMeatbagTranscribing g = 0 ->
  never_activated polls ->
  (emitted iw g polls = [] \/ emitted iw g polls = [Heartbeat]) /\
  filter is_probe (emitted iw g polls) = [] /\
  (previousEvent g = MSG_EVENT_HEARTBEAT -> emitted iw g polls = []) /\
  isMeatbagTranscribing (final iw g polls) = 0 /\
  (forall (before after : list readings) (env : readings),
      polls = before ++ env :: after ->
      isMeatbagTranscribing (final iw g before) = 0 /\
      snd (loop iw env (final iw g before)) =
        (if heartbeat_guard iw env (final iw g before) then [Heartbeat] else []) /\
      heartbeat_guard iw env (final iw g before) =
        (EVENT_TIMESPAN <? timeElapsed iw (to_ulong (millis env))
                             (previousTimestamp (final iw g before)))
        && (previousEvent (final iw g before) =? MSG_EVENT_PROBE) /\
      (heartbeat_guard iw env (final iw g before) = true ->
       previousEvent (fst (loop iw env (final iw g before))) = MSG_EVENT_HEARTBEAT)).
Proof.
  intros Hf Hlow.
  assert (Hmain : (emitted iw g polls = [] \/ emitted iw g polls = [Heartbeat]) /\
                  isMeatbagTranscribing (final iw g polls) = 0).
  { revert g Hf. induction polls as [| env rest IH]; intros g Hf.
    - split; [left; reflexivity | exact Hf].
    - inversion Hlow as [| ? ? Hpin Hrest]; subst.
      rewrite emitted_cons, final_cons, loop_unfold.
      destruct (scheduler_cases iw env g) as [Hh | Hh Hp | Hh Hp]; cbn [fst snd].
      + rewrite activation_flag_clear by exact Hf. rewrite Hpin. cbn [fst snd app].
        destruct (silent_after_heartbeat iw rest
                    (mkGlobals (isMeatbagTranscribing g) (to_ulong (millis env))
                       MSG_EVENT_HEARTBEAT) Hf eq_refl Hrest) as [Hout Hfin].
        rewrite Hout. split; [right; reflexivity | exact Hfin].
      + apply probe_guard_true in Hp. destruct Hp as (_ & _ & Hbad).
        rewrite Hf in Hbad. discriminate.
      + rewrite (activation_flag_clear _ _ Hf), Hpin. cbn [fst snd app].
        apply IH; assumption. }
  destruct Hmain as [Hout Hfin].
  split; [exact Hout | split; [| split; [| split; [exact Hfin |]]]].
  - destruct Hout as [-> | ->]; reflexivity.
  - intros He. apply silent_after_heartbeat; assumption.
  - intros before after env Hsplit. subst polls.
    unfold never_activated in Hlow. apply Forall_app in Hlow.
    destruct Hlow as [Hbefore Hafter].
    inversion Hafter as [| ? ? Hpin _]; subst.
    pose proof (flag_stays_down iw before g Hf Hbefore) as Hfb.
    split; [exact Hfb |].
    rewrite (loop_flag_down iw env _ Hfb Hpin).
    split; [destruct (heartbeat_guard iw env (final iw g before)); reflexivity |].
    split; [reflexivity |].
    intros Hh. rewrite Hh. reflexivity.
Qed.

Lemma flag_down_output_witness :
  never_activated [poll 130 Low High; poll 260 Low High; poll 390 Low High] /\
  filter is_probe
    (emitted W16 init [poll 130 Low High; poll 260 Low High; poll 390 Low High]) = [] /\
  snd (loop W16 (poll 130 Low High) (final W16 init [])) = [Heartbeat] /\
  snd (loop W16 (poll 260 Low High) (final W16 init [poll 130 Low High])) = [].
Proof.
  assert (Hlow : never_activated
                   [poll 130 Low High; poll 260 Low High; poll 390 Low High])
    by (repeat constructor).
  pose (H := flag_down_output W16 _ init eq_refl Hlow).
  split; [exact Hlow |].
  split; [exact (proj1 (proj2 H)) |].
  pose (E := proj2 (proj2 (proj2 (proj2 H)))).
  split.
  - exact (proj1 (proj2 (E [] [poll 260 Low High; poll 390 Low High]
                           (poll 130 Low High) eq_refl))).
  - exact (proj1 (proj2 (E [poll 130 Low High] [poll 390 Low High]
                           (poll 260 Low High) eq_refl))).
Defined.

(** C2 (as stated) fails: from startup with the activation pin low, the
    poll at 130 prints a heartbeat; at 260 and at 390 the elapsed time is
    again above [EVENT_TIMESPAN] and the flag is down, yet no heartbeat is
    printed. *)
Lemma heartbeats_stop_when_flag_down :
  let polls := [poll 130 Low High; poll 260 Low High; poll 390 Low High] in
  let g1 := final W16 init [poll 130 Low High] in
  let g2 := final W16 init [poll 130 Low High; poll 260 Low High] in
  never_activated polls /\
  snd (run W16 init polls) = [[Heartbeat]; []; []] /\
  isMeatbagTranscribing g1 = 0 /\
  EVENT_TIMESPAN < timeElapsed W16 260 (previousTimestamp g1) /\
  snd (loop W16 (poll 260 Low High) g1) = [] /\
  isMeatbagTranscribing g2 = 0 /\
  EVENT_TIMESPAN < timeElapsed W16 390 (previousTimestamp g2) /\
  snd (loop W16 (poll 390 Low High) g2) = [].
Proof.
  cbv zeta. split; [repeat constructor |].
  repeat split.
Qed.

(** * Spacing of heartbeats *)

Lemma loop_heartbeat_iff_guard (iw : int_width) (env : readings) (g : globals) :
  existsb is_heartbeat (snd (loop iw env g)) = heartbeat_guard iw env g.
Proof.
  rewrite loop_unfold. cbn [snd]. rewrite existsb_app.
  assert (Hact : existsb is_heartbeat (snd (activation env (fst (scheduler iw env g))))
                 = false).
  { unfold activation. cbv zeta.
    destruct (_ && _); [reflexivity |]. destruct (_ && _); reflexivity. }
  rewrite Hact, orb_false_r.
  destruct (scheduler_cases iw env g) as [Hh | Hh Hp | Hh Hp];
    rewrite Hh; reflexivity.
Qed.

Lemma heartbeat_times_spaced_from (iw : int_width) (polls : list readings) :
  forall (g : globals) (t : Z),
    0 <= previousTimestamp g <= t ->
    clock_from t polls ->
    spaced EVENT_TIMESPAN (heartbeat_times iw g polls) /\
    forall x, hd_error (heartbeat_times iw g polls) = Some x ->
              previousTimestamp g + EVENT_TIMESPAN < x.
Proof.
  induction polls as [| env rest IH]; intros g t Hg Hclock.
  - split; [exact I | discriminate].
  - destruct Hclock as (Hle & Hlt & Hrest).
    rewrite heartbeat_times_cons, loop_heartbeat_iff_guard.
    assert (Hcur : to_ulong (millis env) = millis env)
      by (apply to_ulong_small; lia).
    pose proof (proj1 (loop_schedule iw env g)) as Hts.
    destruct (scheduler_cases iw env g) as [Hh | Hh Hp | Hh Hp];
      rewrite Hh; cbn [fst previousTimestamp] in Hts; rewrite ?Hcur in Hts.
    + destruct (IH (fst (loop iw env g)) (millis env)) as [IHsp IHhd];
        [rewrite Hts; lia | exact Hrest |].
      rewrite Hts in IHhd. rewrite Hcur.
      apply heartbeat_guard_true in Hh. destruct Hh as [Hte _].
      rewrite Hcur in Hte. apply timeElapsed_gt in Hte; [| lia | lia].
      split.
      * destruct (heartbeat_times iw (fst (loop iw env g)) rest) as [| b tl] eqn:E;
          [exact I |].
        cbn [spaced]. split; [| exact IHsp].
        specialize (IHhd b eq_refl). lia.
      * intros x Hx. injection Hx as <-. exact Hte.
    + destruct (IH (fst (loop iw env g)) (millis env)) as [IHsp IHhd];
        [rewrite Hts; lia | exact Hrest |].
      rewrite Hts in IHhd.
      split; [exact IHsp |].
      intros x Hx. specialize (IHhd x Hx). lia.
    + destruct (IH (fst (loop iw env g)) (millis env)) as [IHsp IHhd];
        [rewrite Hts; lia | exact Hrest |].
      rewrite Hts in IHhd.
      split; [exact IHsp |].
      intros x Hx. specialize (IHhd x Hx). lia.
Qed.

(** C8.  From startup, when the clock readings of the polls do not decrease
    (and are values of the 32-bit counter), any two heartbeats printed one
    after the other are more than [EVENT_TIMESPAN] milliseconds of clock
    time apart, where [EVENT_TIMESPAN] is (1000 / 4) / 2 = 125. *)
Theorem heartbeats_spaced (iw : int_width) (polls : list readings) :
  clock_from 0 polls ->
  spaced EVENT_TIMESPAN (heartbeat_times iw init polls) /\
  EVENT_TIMESPAN = Z.quot (Z.quot 1000 4) 2 /\
  EVENT_TIMESPAN = 125.
Proof.
  intros Hclock. split; [| split; reflexivity].
  apply (heartbeat_times_spaced_from iw polls init 0); [cbn; lia | exact Hclock].
Qed.

Lemma heartbeats_spaced_witness :
  clock_from 0 scenario /\
  heartbeat_times W16 init scenario = [130; 390] /\
  spaced EVENT_TIMESPAN (heartbeat_times W16 init scenario).
Proof.
  assert (Hclock : clock_from 0 scenario) by (cbn; unfold ulong_modulus; lia).
  split; [exact Hclock | split; [reflexivity |]].
  exact (proj1 (heartbeats_spaced W16 scenario Hclock)).
Defined.

(** * Elapsed time *)

Lemma ulong_difference (a b : Z) :
  to_ulong (to_ulong a - to_ulong b) = to_ulong (a - b).
Proof.
  unfold to_ulong. rewrite Zminus_mod_idemp_l, Zminus_mod_idemp_r. reflexivity.
Qed.

Lemma INT_MAX_below_modulus (iw : int_width) : INT_MAX iw < ulong_modulus.
Proof. destruct iw; reflexivity. Qed.

(** C9 (as amended).  [timeElapsed] is the wrapping 32-bit difference of
    the two clock readings, stored in an [int].  When the time that really
    passed between the two readings is at most [INT_MAX], [timeElapsed] is
    that time, also when the counter wrapped in between, and both guards
    compare [EVENT_TIMESPAN] with the time that really passed.  There is no
    other handling of the wrap. *)
Theorem elapsed_is_true_interval (iw : int_width) (t_prev t_cur : Z) :
  0 <= t_cur - t_prev <= INT_MAX iw ->
  timeElapsed iw (to_ulong t_cur) (to_ulong t_prev) = t_cur - t_prev /\
  (forall (pn : Z -> level) (flag ev : Z),
      heartbeat_guard iw (mkReadings t_cur pn) (mkGlobals flag (to_ulong t_prev) ev) =
        (EVENT_TIMESPAN <? t_cur - t_prev) && (ev =? MSG_EVENT_PROBE)) /\
  (forall (pn : Z -> level) (flag ev : Z),
      probe_guard iw (mkReadings t_cur pn) (mkGlobals flag (to_ulong t_prev) ev) =
        (EVENT_TIMESPAN <? t_cur - t_prev) && (ev =? MSG_EVENT_HEARTBEAT)
        && (flag =? 1)).
Proof.
  intros Hd.
  assert (Hte : timeElapsed iw (to_ulong t_cur) (to_ulong t_prev) = t_cur - t_prev).
  { unfold timeElapsed. rewrite ulong_difference.
    pose proof (INT_MAX_below_modulus iw).
    rewrite to_ulong_small by lia. apply to_int_small. exact Hd. }
  split; [exact Hte | split].
  - intros pn flag ev. unfold heartbeat_guard.
    cbn [millis previousTimestamp previousEvent]. cbv zeta.
    rewrite Hte. reflexivity.
  - intros pn flag ev. unfold probe_guard.
    cbn [millis previousTimestamp previousEvent isMeatbagTranscribing]. cbv zeta.
    rewrite Hte. change (to_ulong MSG_EVENT_HEARTBEAT) with MSG_EVENT_HEARTBEAT.
    destruct (EVENT_TIMESPAN <? t_cur - t_prev), (ev =? MSG_EVENT_HEARTBEAT),
      (flag =? 1); reflexivity.
Qed.

(** The counter wraps between the two readings: 50 ms before the wrap and
    100 ms after it. *)
Lemma elapsed_is_true_interval_witness :
  0 <= (ulong_modulus + 100) - (ulong_modulus - 50) <= INT_MAX W16 /\
  to_ulong (ulong_modulus + 100) = 100 /\
  to_ulong (ulong_modulus - 50) = 4294967246 /\
  timeElapsed W16 100 4294967246 = 150.
Proof.
  assert (Hd : 0 <= (ulong_modulus + 100) - (ulong_modulus - 50) <= INT_MAX W16)
    by (unfold ulong_modulus; cbn; lia).
  split; [exact Hd | split; [reflexivity | split; [reflexivity |]]].
  exact (proj1 (elapsed_is_true_interval W16 (ulong_modulus - 50)
                  (ulong_modulus + 100) Hd)).
Defined.

(** C9 (as stated) fails: the elapsed value the guards use is not the
    wrapping unsigned difference once that difference exceeds [INT_MAX].
    On a 16-bit [int], 40 s after startup the value is negative and the
    due heartbeat is not printed; likewise, after a heartbeat at 130 ms and
    an activation at 40200 ms, the poll at 40201 ms finds the flag up and
    40071 ms elapsed, yet prints no probe.  On a 32-bit [int] the same
    happens at 2^31 ms. *)
Lemma elapsed_not_unsigned_difference :
  let g := final W16 init [poll 130 Low High; poll 40200 High High] in
  (to_ulong (40000 - 0) = 40000 /\
   timeElapsed W16 40000 0 = -25536 /\
   (EVENT_TIMESPAN <? to_ulong (40000 - 0)) = true /\
   heartbeat_guard W16 (poll 40000 Low Low) init = false /\
   snd (loop W16 (poll 40000 Low Low) init) = []) /\
  (g = mkGlobals 1 130 MSG_EVENT_HEARTBEAT /\
   to_ulong (40201 - previousTimestamp g) = 40071 /\
   timeElapsed W16 40201 (previousTimestamp g) = -25465 /\
   probe_guard W16 (poll 40201 High High) g = false /\
   snd (loop W16 (poll 40201 High High) g) = []) /\
  (to_ulong (2147483648 - 0) = 2147483648 /\
   timeElapsed W32 2147483648 0 = -2147483648 /\
   heartbeat_guard W32 (poll 2147483648 Low Low) init = false /\
   snd (loop W32 (poll 2147483648 Low Low) init) = []).
Proof. cbv zeta. repeat split. Qed.

(** * Decoding the stream *)

Lemma loop_prints_valid (iw : int_width) (env : readings) (g : globals) :
  Forall valid_emission (snd (loop iw env g)).
Proof.
  rewrite loop_unfold. cbn [snd]. apply Forall_app. split.
  - destruct (scheduler_cases iw env g); cbn [snd].
    + constructor; [exact I | constructor].
    + constructor; [| constructor]. cbn [valid_emission].
      destruct (pins env PIN_MEATBAG_IN); [left | right]; reflexivity.
    + constructor.
  - unfold activation. cbv zeta.
    destruct (_ && _); [repeat constructor |].
    destruct (_ && _); repeat constructor.
Qed.

Lemma emitted_valid (iw : int_width) (polls : list readings) :
  forall g : globals, Forall valid_emission (emitted iw g polls).
Proof.
  induction polls as [| env rest IH]; intros g.
  - constructor.
  - rewrite emitted_cons. apply Forall_app. split;
      [apply loop_prints_valid | apply IH].
Qed.

(** Every print of the sketch is one byte, and the byte names the print. *)
Lemma print_is_one_byte (e : emission) :
  valid_emission e ->
  exists c : ascii,
    Serial_print (printed e) = String c EmptyString /\
    decode_byte c = Some e /\
    existsb (Ascii.eqb c) (list_ascii_of_string "01234") = true.
Proof.
  destruct e as [| v | |]; cbn [valid_emission]; intros Hv.
  - exists "4"%char. repeat split.
  - destruct Hv as [-> | ->]; [exists "0"%char | exists "1"%char]; repeat split.
  - exists "2"%char. repeat split.
  - exists "3"%char. repeat split.
Qed.

Lemma decode_wire (es : list emission) :
  Forall valid_emission es ->
  decode (wire es) = Some es /\ bytes_in "01234" (wire es) = true.
Proof.
  induction 1 as [| e es He Hes [IHd IHb]].
  - split; reflexivity.
  - destruct (print_is_one_byte e He) as (c & Hc & Hdec & Hin).
    cbn [wire]. rewrite Hc.
    change (String c EmptyString ++ wire es)%string with (String c (wire es)).
    cbn [decode bytes_in]. rewrite Hdec, IHd, Hin, IHb. split; reflexivity.
Qed.

(** C6 (as amended).  For every sequence of polls, every byte of the stream
    is one of the digits 0 to 4 (no 5 is ever written), each byte is one
    event (0 and 1 a probe carrying that bit, 2 a deactivation, 3 an
    activation, 4 a heartbeat), reading the stream byte by byte gives back
    the sequence of events that were printed, and two runs with the same
    stream printed the same events. *)
Theorem stream_decodes_bytewise (iw : int_width) (g : globals)
  (polls : list readings) :
  bytes_in "01234" (wire (emitted iw g polls)) = true /\
  decode (wire (emitted iw g polls)) = Some (emitted iw g polls) /\
  forall (iw' : int_width) (g' : globals) (polls' : list readings),
    wire (emitted iw' g' polls') = wire (emitted iw g polls) ->
    emitted iw' g' polls' = emitted iw g polls.
Proof.
  destruct (decode_wire _ (emitted_valid iw polls g)) as [Hd Hb].
  split; [exact Hb | split; [exact Hd |]].
  intros iw' g' polls' Hw.
  destruct (decode_wire _ (emitted_valid iw' polls' g')) as [Hd' _].
  rewrite Hw, Hd in Hd'. injection Hd' as Heq. symmetry. exact Heq.
Qed.

Lemma stream_decodes_bytewise_witness :
  wire (emitted W32 init scenario) = wire (emitted W16 init scenario) /\
  emitted W32 init scenario = emitted W16 init scenario.
Proof.
  split; [reflexivity |].
  exact (proj2 (proj2 (stream_decodes_bytewise W16 init scenario))
           W32 init scenario eq_refl).
Defined.

(** C6 (as stated) fails: in the scenario a probe is printed, the stream is
    3414 and holds no 5, and the grammar that reads a probe as 5 followed
    by a bit does not give back the events that were printed. *)
Lemma spec_grammar_loses_probe :
  emitted W16 init scenario = [Activate; Heartbeat; Probe 1; Heartbeat] /\
  wire (emitted W16 init scenario) = "3414"%string /\
  spec_decode (wire (emitted W16 init scenario))
    = Some [SEvent 3; SEvent 4; SEvent 1; SEvent 4] /\
  spec_decode (wire (emitted W16 init scenario))
    <> Some (map spec_token_of (emitted W16 init scenario)).
Proof.
  split; [reflexivity | split; [reflexivity | split; [reflexivity |]]].
  vm_compute. discriminate.
Qed.

(** * What one poll can print *)

Lemma activation_outcomes (env : readings) (g : globals) :
  (activation env g = (g, [])) \/
  (isMeatbagTranscribing g = 1 /\
   activation env g =
     (mkGlobals 0 (previousTimestamp g) (previousEvent g), [Deactivate])) \/
  (isMeatbagTranscribing g = 0 /\
   activation env g =
     (mkGlobals 1 (previousTimestamp g) (previousEvent g), [Activate])).
Proof.
  unfold activation. cbv zeta.
  destruct (isMeatbagTranscribing g =? 1) eqn:E1; cbn [andb].
  - apply Z.eqb_eq in E1.
    destruct (digitalRead env PIN_MEATBAG_ACTIVATE =? LOW).
    + right. left. split; [exact E1 | reflexivity].
    + rewrite E1. cbn. left. reflexivity.
  - destruct (isMeatbagTranscribing g =? 0) eqn:E0; cbn [andb].
    + apply Z.eqb_eq in E0.
      destruct (digitalRead env PIN_MEATBAG_ACTIVATE =? HIGH).
      * right. right. split; [exact E0 | reflexivity].
      * left. reflexivity.
    + left. reflexivity.
Qed.

(** X1.  A poll prints at most one timing event and then at most one
    activation event, so at most two bytes; a probe is never printed in the
    poll that prints an activation.  The eight possible outputs are listed. *)
Theorem poll_output_shapes (iw : int_width) (env : readings) (g : globals) :
  let out := snd (loop iw env g) in
  (length out <= 2)%nat /\
  (out = [] \/ out = [Heartbeat] \/ out = [Deactivate] \/ out = [Activate] \/
   out = [Heartbeat; Deactivate] \/ out = [Heartbeat; Activate] \/
   out = [Probe (digitalRead env PIN_MEATBAG_IN)] \/
   out = [Probe (digitalRead env PIN_MEATBAG_IN); Deactivate]).
Proof.
  cbv zeta.
  assert (Hshape :
    snd (loop iw env g) = [] \/ snd (loop iw env g) = [Heartbeat] \/
    snd (loop iw env g) = [Deactivate] \/ snd (loop iw env g) = [Activate] \/
    snd (loop iw env g) = [Heartbeat; Deactivate] \/
    snd (loop iw env g) = [Heartbeat; Activate] \/
    snd (loop iw env g) = [Probe (digitalRead env PIN_MEATBAG_IN)] \/
    snd (loop iw env g) = [Probe (digitalRead env PIN_MEATBAG_IN); Deactivate]).
  { rewrite loop_unfold. cbn [snd].
    destruct (scheduler_cases iw env g) as [Hh | Hh Hp | Hh Hp]; cbn [fst snd].
    - match goal with |- context [activation env ?h] =>
        destruct (activation_outcomes env h) as [-> | [[_ ->] | [_ ->]]] end;
        cbn [snd app]; tauto.
    - apply probe_guard_true in Hp. destruct Hp as (_ & _ & Hf).
      rewrite activation_flag_set by exact Hf.
      destruct (pins env PIN_MEATBAG_ACTIVATE); cbn [snd app];
        unfold digitalRead; tauto.
    - destruct (activation_outcomes env g) as [-> | [[_ ->] | [_ ->]]];
        cbn [snd app]; tauto. }
  split; [| exact Hshape].
  repeat (destruct Hshape as [-> | Hshape]); try rewrite Hshape; cbn; lia.
Qed.

(** * Silent polls *)

Lemma loop_silent_keeps_state (iw : int_width) (env : readings) (g : globals) :
  snd (loop iw env g) = [] -> fst (loop iw env g) = g.
Proof.
  rewrite loop_unfold. cbn [fst snd]. intros Hout.
  apply app_eq_nil in Hout. destruct Hout as [Hs Ha].
  destruct (scheduler_cases iw env g) as [Hh | Hh Hp | Hh Hp];
    cbn [fst snd] in *; try discriminate.
  destruct (activation_outcomes env g) as [E | [[_ E] | [_ E]]];
    rewrite E in Ha |- *; cbn [fst snd] in *; try discriminate.
  reflexivity.
Qed.

Lemma loop_print_changes_state (iw : int_width) (env : readings) (g : globals) :
  fst (loop iw env g) = g -> snd (loop iw env g) = [].
Proof.
  intros Hst.
  pose proof (proj2 (loop_schedule iw env g)) as Hev. rewrite Hst in Hev.
  assert (Hfl : isMeatbagTranscribing (fst (activation env (fst (scheduler iw env g))))
                = isMeatbagTranscribing g)
    by (rewrite loop_unfold in Hst; cbn [fst] in Hst; rewrite Hst; reflexivity).
  rewrite loop_unfold. cbn [snd].
  pose proof (scheduler_flag iw env g) as Hsf.
  destruct (scheduler_cases iw env g) as [Hh | Hh Hp | Hh Hp];
    cbn [fst snd previousEvent] in *.
  - apply heartbeat_guard_true in Hh. destruct Hh as [_ He].
    rewrite He in Hev. discriminate.
  - apply probe_guard_true in Hp. destruct Hp as (_ & He & _).
    rewrite He in Hev. discriminate.
  - destruct (activation_outcomes env g) as [E | [[Hf E] | [Hf E]]];
      rewrite E in Hfl |- *; cbn [fst snd isMeatbagTranscribing app] in *.
    + reflexivity.
    + rewrite Hf in Hfl. discriminate.
    + rewrite Hf in Hfl. discriminate.
Qed.

(** X2.  In any state, a poll prints nothing exactly when it leaves the
    three globals as they were: every change of state is announced on the
    serial line, and every print goes with a change of state. *)
Theorem silent_iff_unchanged (iw : int_width) (env : readings) (g : globals) :
  snd (loop iw env g) = [] <-> fst (loop iw env g) = g.
Proof.
  split; [apply loop_silent_keeps_state | apply loop_print_changes_state].
Qed.

Lemma silent_iff_unchanged_witness :
  snd (loop W16 (poll 100 Low High) init) = [] /\
  fst (loop W16 (poll 100 Low High) init) = init.
Proof.
  split; [reflexivity |].
  exact (proj1 (silent_iff_unchanged W16 (poll 100 Low High) init) eq_refl).
Defined.

Lemma emitted_app (iw : int_width) (a b : list readings) :
  forall g : globals,
    emitted iw g (a ++ b) = emitted iw g a ++ emitted iw (final iw g a) b.
Proof.
  induction a as [| env a IH]; intros g.
  - reflexivity.
  - cbn [app]. rewrite !emitted_cons, final_cons, IH. apply app_assoc.
Qed.

Lemma final_app (iw : int_width) (a b : list readings) :
  forall g : globals, final iw g (a ++ b) = final iw (final iw g a) b.
Proof.
  induction a as [| env a IH]; intros g.
  - reflexivity.
  - cbn [app]. rewrite !final_cons. apply IH.
Qed.

(** X3.  A poll that prints nothing can be left out of a sequence of polls
    without changing what the whole sequence prints or the state it ends
    in: polling more or less often between events makes no difference. *)
Theorem silent_poll_can_be_dropped (iw : int_width) (g : globals)
  (before after : list readings) (env : readings) :
  snd (loop iw env (final iw g before)) = [] ->
  emitted iw g (before ++ env :: after) = emitted iw g (before ++ after) /\
  final iw g (before ++ env :: after) = final iw g (before ++ after).
Proof.
  intros Hsilent.
  pose proof (loop_silent_keeps_state _ _ _ Hsilent) as Hst.
  rewrite !emitted_app, !final_app, emitted_cons, final_cons, Hsilent, Hst.
  split; reflexivity.
Qed.

Lemma silent_poll_can_be_dropped_witness :
  snd (loop W16 (poll 200 High High) (final W16 init [poll 0 High High; poll 130 High High]))
    = [] /\
  emitted W16 init ([poll 0 High High; poll 130 High High]
                    ++ poll 200 High High :: [poll 260 High High])
  = emitted W16 init ([poll 0 High High; poll 130 High High] ++ [poll 260 High High]).
Proof.
  split; [reflexivity |].
  exact (proj1 (silent_poll_can_be_dropped W16 init
                  [poll 0 High High; poll 130 High High] [poll 260 High High]
                  (poll 200 High High) eq_refl)).
Defined.

(** * Timing events of a poll, by selector *)

Lemma activation_no_timing (sel : emission -> bool) (env : readings) (g : globals) :
  sel Deactivate = false -> sel Activate = false ->
  filter sel (snd (activation env g)) = [] /\
  existsb sel (snd (activation env g)) = false.
Proof.
  intros Hd Ha.
  destruct (activation_outcomes env g) as [-> | [[_ ->] | [_ ->]]];
    cbn [snd filter existsb]; rewrite ?Hd, ?Ha; split; reflexivity.
Qed.

Lemma loop_timing_part (sel : emission -> bool) (iw : int_width)
  (env : readings) (g : globals) :
  sel Deactivate = false -> sel Activate = false ->
  filter sel (snd (loop iw env g)) = filter sel (snd (scheduler iw env g)) /\
  existsb sel (snd (loop iw env g)) = existsb sel (snd (scheduler iw env g)).
Proof.
  intros Hd Ha. rewrite loop_unfold. cbn [snd].
  rewrite filter_app, existsb_app.
  destruct (activation_no_timing sel env (fst (scheduler iw env g)) Hd Ha) as [-> ->].
  rewrite app_nil_r, orb_false_r. split; reflexivity.
Qed.

Lemma times_of_cons (sel : emission -> bool) (iw : int_width) (g : globals)
  (env : readings) (rest : list readings) :
  times_of sel iw g (env :: rest) =
  if existsb sel (snd (loop iw env g))
  then to_ulong (millis env) :: times_of sel iw (fst (loop iw env g)) rest
  else times_of sel iw (fst (loop iw env g)) rest.
Proof. cbn [times_of]. destruct (loop iw env g). reflexivity. Qed.

Lemma heartbeat_times_as_times_of (iw : int_width) (polls : list readings) :
  forall g : globals, heartbeat_times iw g polls = times_of is_heartbeat iw g polls.
Proof.
  induction polls as [| env rest IH]; intros g.
  - reflexivity.
  - rewrite heartbeat_times_cons, times_of_cons, IH. reflexivity.
Qed.

(** One poll under a clock that does not run backwards: which timing event
    it prints, and the schedule it leaves. *)
Lemma loop_timing_step (iw : int_width) (env : readings) (g : globals) (t : Z) :
  0 <= previousTimestamp g <= t ->
  t <= millis env < ulong_modulus ->
  let g1 := fst (loop iw env g) in
  let out := snd (loop iw env g) in
  to_ulong (millis env) = millis env /\
  ((previousEvent g = MSG_EVENT_PROBE /\
    previousTimestamp g + EVENT_TIMESPAN < millis env /\
    previousTimestamp g1 = millis env /\ previousEvent g1 = MSG_EVENT_HEARTBEAT /\
    existsb is_heartbeat out = true /\ existsb is_probe out = false /\
    existsb is_sched out = true)
   \/
   (previousEvent g = MSG_EVENT_HEARTBEAT /\
    previousTimestamp g + EVENT_TIMESPAN < millis env /\
    previousTimestamp g1 = millis env /\ previousEvent g1 = MSG_EVENT_PROBE /\
    existsb is_heartbeat out = false /\ existsb is_probe out = true /\
    existsb is_sched out = true)
   \/
   (previousTimestamp g1 = previousTimestamp g /\
    previousEvent g1 = previousEvent g /\
    existsb is_heartbeat out = false /\ existsb is_probe out = false /\
    existsb is_sched out = false)).
Proof.
  intros Hg Hc. cbv zeta.
  assert (Hcur : to_ulong (millis env) = millis env)
    by (apply to_ulong_small; lia).
  split; [exact Hcur |].
  destruct (loop_schedule iw env g) as [Hts Hev]. rewrite Hts, Hev.
  rewrite (proj2 (loop_timing_part is_heartbeat iw env g eq_refl eq_refl)).
  rewrite (proj2 (loop_timing_part is_probe iw env g eq_refl eq_refl)).
  rewrite (proj2 (loop_timing_part is_sched iw env g eq_refl eq_refl)).
  destruct (scheduler_cases iw env g) as [Hh | Hh Hp | Hh Hp];
    cbn [fst snd previousTimestamp previousEvent existsb is_heartbeat is_probe
         is_sched orb].
  - left. apply heartbeat_guard_true in Hh. destruct Hh as [Hte He].
    rewrite Hcur in *. apply timeElapsed_gt in Hte; [| lia | lia].
    repeat split; assumption.
  - right. left. apply probe_guard_true in Hp. destruct Hp as (Hte & He & _).
    rewrite Hcur in *. apply timeElapsed_gt in Hte; [| lia | lia].
    repeat split; assumption.
  - right. right. repeat split.
Qed.

Lemma CYCLE_TIMESPAN_value : CYCLE_TIMESPAN = 250.
Proof. reflexivity. Qed.

(** * Spacing of timing events *)

Lemma sched_times_spaced_from (iw : int_width) (polls : list readings) :
  forall (g : globals) (t : Z),
    0 <= previousTimestamp g <= t ->
    clock_from t polls ->
    spaced EVENT_TIMESPAN (times_of is_sched iw g polls) /\
    forall x, hd_error (times_of is_sched iw g polls) = Some x ->
              previousTimestamp g + EVENT_TIMESPAN < x.
Proof.
  induction polls as [| env rest IH]; intros g t Hg Hclock.
  - split; [exact I | discriminate].
  - destruct Hclock as (Hle & Hlt & Hrest). rewrite times_of_cons.
    destruct (loop_timing_step iw env g t Hg (conj Hle Hlt))
      as (Hcur & [Hc | [Hc | Hc]]);
      [destruct Hc as (_ & Hgap & Hts & _ & _ & _ & Hs)
      | destruct Hc as (_ & Hgap & Hts & _ & _ & _ & Hs)
      | destruct Hc as (Hts & _ & _ & _ & Hs)];
      rewrite Hs;
      (destruct (IH (fst (loop iw env g)) (millis env)) as [IHsp IHhd];
       [rewrite Hts; lia | exact Hrest |]); rewrite Hts in IHhd.
    + rewrite Hcur. split.
      * destruct (times_of is_sched iw (fst (loop iw env g)) rest) as [| b tl];
          [exact I |].
        cbn [spaced]. split; [| exact IHsp]. specialize (IHhd b eq_refl). lia.
      * intros x Hx. injection Hx as <-. exact Hgap.
    + rewrite Hcur. split.
      * destruct (times_of is_sched iw (fst (loop iw env g)) rest) as [| b tl];
          [exact I |].
        cbn [spaced]. split; [| exact IHsp]. specialize (IHhd b eq_refl). lia.
      * intros x Hx. injection Hx as <-. exact Hgap.
    + split; [exact IHsp | exact IHhd].
Qed.

(** The next event of kind [sel] is more than a half cycle away, and more
    than a full cycle away unless it is the event that is due. *)
Lemma kind_times_spaced_from (sel : emission -> bool) (due : Z)
  (iw : int_width) (polls : list readings) :
  (sel = is_heartbeat /\ due = MSG_EVENT_PROBE) \/
  (sel = is_probe /\ due = MSG_EVENT_HEARTBEAT) ->
  forall (g : globals) (t : Z),
    0 <= previousTimestamp g <= t ->
    clock_from t polls ->
    spaced CYCLE_TIMESPAN (times_of sel iw g polls) /\
    forall x, hd_error (times_of sel iw g polls) = Some x ->
              previousTimestamp g + EVENT_TIMESPAN < x /\
              (previousEvent g <> due -> previousTimestamp g + CYCLE_TIMESPAN < x).
Proof.
  intros Hsel.
  induction polls as [| env rest IH]; intros g t Hg Hclock.
  - split; [exact I | discriminate].
  - destruct Hclock as (Hle & Hlt & Hrest). rewrite times_of_cons.
    pose proof EVENT_TIMESPAN_value as HE. pose proof CYCLE_TIMESPAN_value as HC.
    destruct (loop_timing_step iw env g t Hg (conj Hle Hlt))
      as (Hcur & [Hc | [Hc | Hc]]);
      [destruct Hc as (Hev & Hgap & Hts & Hev1 & Hh & Hp & _)
      | destruct Hc as (Hev & Hgap & Hts & Hev1 & Hh & Hp & _)
      | destruct Hc as (Hts & Hev1 & Hh & Hp & _)];
      (destruct (IH (fst (loop iw env g)) (millis env)) as [IHsp IHhd];
       [rewrite Hts; lia | exact Hrest |]); rewrite Hts, Hev1 in IHhd;
      destruct Hsel as [[-> ->] | [-> ->]]; rewrite ?Hh, ?Hp, ?Hcur.
    + split.
      * destruct (times_of is_heartbeat iw (fst (loop iw env g)) rest) as [| b tl];
          [exact I |].
        cbn [spaced]. split; [| exact IHsp].
        destruct (IHhd b eq_refl) as [_ Hfar].
        assert (MSG_EVENT_HEARTBEAT <> MSG_EVENT_PROBE) by discriminate.
        specialize (Hfar ltac:(assumption)). lia.
      * intros x Hx. injection Hx as <-. split; [exact Hgap | congruence].
    + split; [exact IHsp |].
      intros x Hx. destruct (IHhd x Hx) as [Hnear _]. split; lia.
    + split; [exact IHsp |].
      intros x Hx. destruct (IHhd x Hx) as [Hnear _]. split; lia.
    + split.
      * destruct (times_of is_probe iw (fst (loop iw env g)) rest) as [| b tl];
          [exact I |].
        cbn [spaced]. split; [| exact IHsp].
        destruct (IHhd b eq_refl) as [_ Hfar].
        assert (MSG_EVENT_PROBE <> MSG_EVENT_HEARTBEAT) by discriminate.
        specialize (Hfar ltac:(assumption)). lia.
      * intros x Hx. injection Hx as <-. split; [exact Hgap | congruence].
    + split; [exact IHsp | exact IHhd].
    + split; [exact IHsp | exact IHhd].
Qed.

(** X4.  From startup, when the clock readings do not decrease, any two
    timing events printed one after the other are more than
    [EVENT_TIMESPAN] (125 ms) apart; hence two heartbeats in a row are more
    than [CYCLE_TIMESPAN] (250 ms) apart, and so are two probes in a row. *)
Theorem timing_events_spaced (iw : int_width) (polls : list readings) :
  clock_from 0 polls ->
  spaced EVENT_TIMESPAN (times_of is_sched iw init polls) /\
  spaced CYCLE_TIMESPAN (heartbeat_times iw init polls) /\
  spaced CYCLE_TIMESPAN (times_of is_probe iw init polls).
Proof.
  intros Hclock.
  assert (Hinit : 0 <= previousTimestamp init <= 0) by (cbn; lia).
  split; [| split].
  - apply (sched_times_spaced_from iw polls init 0 Hinit Hclock).
  - rewrite heartbeat_times_as_times_of.
    apply (kind_times_spaced_from is_heartbeat MSG_EVENT_PROBE iw polls
             (or_introl (conj eq_refl eq_refl)) init 0 Hinit Hclock).
  - apply (kind_times_spaced_from is_probe MSG_EVENT_HEARTBEAT iw polls
             (or_intror (conj eq_refl eq_refl)) init 0 Hinit Hclock).
Qed.

Lemma timing_events_spaced_witness :
  let polls := map (fun t => poll t High High) [0; 130; 260; 390; 520] in
  clock_from 0 polls /\
  times_of is_sched W16 init polls = [130; 260; 390; 520] /\
  heartbeat_times W16 init polls = [130; 390] /\
  times_of is_probe W16 init polls = [260; 520] /\
  spaced CYCLE_TIMESPAN (heartbeat_times W16 init polls).
Proof.
  cbv zeta.
  assert (Hclock : clock_from 0 (map (fun t => poll t High High) [0; 130; 260; 390; 520]))
    by (cbn; unfold ulong_modulus; lia).
  split; [exact Hclock |].
  split; [reflexivity |]. split; [reflexivity |]. split; [reflexivity |].
  exact (proj1 (proj2 (timing_events_spaced W16 _ Hclock))).
Defined.

(** * Probes and the flag *)

Lemma probes_gated_from (iw : int_width) (polls : list readings) :
  forall g : globals,
    isMeatbagTranscribing g = 0 \/ isMeatbagTranscribing g = 1 ->
    probes_gated (isMeatbagTranscribing g =? 1) (emitted iw g polls) = true.
Proof.
  induction polls as [| env rest IH]; intros g Hg; [reflexivity |].
  rewrite emitted_cons.
  pose proof (loop_flag iw env g Hg) as Hflag.
  assert (Hg1 : isMeatbagTranscribing (fst (loop iw env g)) = 0 \/
                isMeatbagTranscribing (fst (loop iw env g)) = 1)
    by (rewrite Hflag; destruct (pins env PIN_MEATBAG_ACTIVATE); [left | right]; reflexivity).
  specialize (IH _ Hg1). rewrite Hflag in IH.
  set (tl := emitted iw (fst (loop iw env g)) rest) in *.
  rewrite loop_unfold. cbn [snd].
  pose proof (scheduler_flag iw env g) as Hs.
  destruct Hg as [Hg | Hg]; rewrite Hg in Hs |- *;
    [rewrite (activation_flag_clear _ _ Hs) | rewrite (activation_flag_set _ _ Hs)];
    destruct (pins env PIN_MEATBAG_ACTIVATE);
    destruct (scheduler_cases iw env g) as [Hh | Hh Hp | Hh Hp];
    cbn [fst snd app probes_gated andb level_int] in *;
    try exact IH;
    apply probe_guard_true in Hp; destruct Hp as (_ & _ & Hbad);
    rewrite Hg in Hbad; discriminate.
Qed.

(** X5.  From startup, every probe on the serial line is printed while the
    flag is raised: scanning the stream, each probe comes after an
    activation and before the deactivation that follows it. *)
Theorem probes_only_while_active (iw : int_width) (polls : list readings) :
  probes_gated false (emitted iw init polls) = true.
Proof. apply (probes_gated_from iw polls init). left. reflexivity. Qed.

(** * The schedule, read off the stream *)

Lemma schedule_tracks_stream_from (iw : int_width) (polls : list readings) :
  forall g : globals,
    previousEvent (final iw g polls) =
      match last_error (filter is_sched (emitted iw g polls)) with
      | Some Heartbeat => MSG_EVENT_HEARTBEAT
      | Some _ => MSG_EVENT_PROBE
      | None => previousEvent g
      end /\
    previousTimestamp (final iw g polls) =
      match last_error (times_of is_sched iw g polls) with
      | Some t => t
      | None => previousTimestamp g
      end.
Proof.
  induction polls as [| env rest IH]; intros g; [split; reflexivity |].
  rewrite final_cons, emitted_cons, filter_app, loop_sched_part, times_of_cons.
  rewrite (proj2 (loop_timing_part is_sched iw env g eq_refl eq_refl)).
  destruct (IH (fst (loop iw env g))) as [IHe IHt]. rewrite IHe, IHt.
  destruct (loop_schedule iw env g) as [Hts Hev]. rewrite Hts, Hev.
  destruct (scheduler_cases iw env g) as [Hh | Hh Hp | Hh Hp];
    cbn [fst snd app existsb is_sched orb previousEvent previousTimestamp].
  - rewrite !last_error_cons. split.
    + destruct (last_error (filter is_sched _)) as [[] |]; reflexivity.
    + destruct (last_error (times_of is_sched _ _ _)); reflexivity.
  - rewrite !last_error_cons. split.
    + destruct (last_error (filter is_sched _)) as [[] |]; reflexivity.
    + destruct (last_error (times_of is_sched _ _ _)); reflexivity.
  - split; reflexivity.
Qed.

(** X6.  From startup, the schedule the sketch holds can be read off what
    it printed: [previousEvent] is HEARTBEAT when the last timing event
    printed was a heartbeat and PROBE otherwise, and [previousTimestamp] is
    the clock reading of the poll that printed the last timing event, or 0
    when none was printed. *)
Theorem schedule_tracks_stream (iw : int_width) (polls : list readings) :
  previousEvent (final iw init polls) =
    match last_error (filter is_sched (emitted iw init polls)) with
    | Some Heartbeat => MSG_EVENT_HEARTBEAT
    | _ => MSG_EVENT_PROBE
    end /\
  previousTimestamp (final iw init polls) =
    match last_error (times_of is_sched iw init polls) with
    | Some t => t
    | None => 0
    end.
Proof.
  destruct (schedule_tracks_stream_from iw polls init) as [He Ht].
  split; [| exact Ht].
  rewrite He. destruct (last_error _) as [[] |]; reflexivity.
Qed.

(** * Heartbeats and probes in numbers *)

Lemma heartbeat_probe_balance_from (iw : int_width) (polls : list readings) :
  forall g : globals,
    (length (filter is_heartbeat (emitted iw g polls))
     + (if (previousEvent g =? MSG_EVENT_HEARTBEAT)%Z then 1 else 0)
     = length (filter is_probe (emitted iw g polls))
       + (if (previousEvent (final iw g polls) =? MSG_EVENT_HEARTBEAT)%Z then 1 else 0))%nat.
Proof.
  induction polls as [| env rest IH]; intros g; [reflexivity |].
  rewrite final_cons, emitted_cons, !filter_app, !length_app.
  rewrite (proj1 (loop_timing_part is_heartbeat iw env g eq_refl eq_refl)).
  rewrite (proj1 (loop_timing_part is_probe iw env g eq_refl eq_refl)).
  specialize (IH (fst (loop iw env g))).
  rewrite (proj2 (loop_schedule iw env g)) in IH at 1.
  destruct (scheduler_cases iw env g) as [Hh | Hh Hp | Hh Hp];
    cbn [fst snd previousEvent filter is_heartbeat is_probe length] in *.
  - apply heartbeat_guard_true in Hh. destruct Hh as [_ He]. rewrite He.
    change (MSG_EVENT_PROBE =? MSG_EVENT_HEARTBEAT) with false.
    change (MSG_EVENT_HEARTBEAT =? MSG_EVENT_HEARTBEAT) with true in IH.
    destruct (previousEvent (final iw _ rest) =? _); cbv iota in *; lia.
  - apply probe_guard_true in Hp. destruct Hp as (_ & He & _). rewrite He.
    change (MSG_EVENT_PROBE =? MSG_EVENT_HEARTBEAT) with false in IH.
    change (MSG_EVENT_HEARTBEAT =? MSG_EVENT_HEARTBEAT) with true.
    destruct (previousEvent (final iw _ rest) =? _); cbv iota in *; lia.
  - lia.
Qed.

(** X7.  From startup, the number of heartbeats printed is the number of
    probes printed, plus one when the last timing event was a heartbeat:
    every probe has its heartbeat before it, and at most one heartbeat is
    still waiting for its probe. *)
Theorem heartbeat_probe_balance (iw : int_width) (polls : list readings) :
  length (filter is_heartbeat (emitted iw init polls)) =
  (length (filter is_probe (emitted iw init polls))
   + (if (previousEvent (final iw init polls) =? MSG_EVENT_HEARTBEAT)%Z then 1 else 0))%nat.
Proof.
  pose proof (heartbeat_probe_balance_from iw polls init) as H.
  change (previousEvent init =? MSG_EVENT_HEARTBEAT) with false in H.
  cbv iota in H. lia.
Qed.

(** * The elapsed-time comparison beyond [INT_MAX] *)

Lemma half_modulus (iw : int_width) :
  2 ^ int_bits iw / 2 = 2 ^ (int_bits iw - 1).
Proof. destruct iw; reflexivity. Qed.

Lemma low_bits_of_ulong (iw : int_width) (z : Z) :
  to_ulong z mod 2 ^ int_bits iw = z mod 2 ^ int_bits iw.
Proof.
  unfold to_ulong, ulong_modulus. apply Z.mod_mod_divide.
  destruct iw; cbn [int_bits]; [exists (2 ^ 16) | exists 1]; reflexivity.
Qed.

(** X8.  For any two clock readings, the comparison both timing branches
    make holds exactly when the low bits of the unsigned difference that
    fit the [int], read as a number, lie strictly between [EVENT_TIMESPAN]
    and 2^(w-1); and the elapsed value repeats every 2^w milliseconds, so
    on a 16-bit [int] an event that stays due is open for about 32.6 s out
    of every 65.536 s. *)
Theorem elapsed_comparison_window (iw : int_width) (cur prev k : Z) :
  (EVENT_TIMESPAN <? timeElapsed iw cur prev) =
    ((EVENT_TIMESPAN <? to_ulong (cur - prev) mod 2 ^ int_bits iw)
     && (to_ulong (cur - prev) mod 2 ^ int_bits iw <? 2 ^ (int_bits iw - 1))) /\
  timeElapsed iw (cur + k * 2 ^ int_bits iw) prev = timeElapsed iw cur prev.
Proof.
  split.
  - unfold timeElapsed, to_int. cbv zeta. rewrite half_modulus.
    set (r := to_ulong (cur - prev) mod 2 ^ int_bits iw).
    assert (Hr : 0 <= r < 2 ^ int_bits iw)
      by (apply Z.mod_pos_bound; destruct iw; reflexivity).
    destruct (Z.ltb_spec r (2 ^ (int_bits iw - 1))) as [Hlt | Hge].
    + rewrite andb_true_r. reflexivity.
    + rewrite andb_false_r. apply Z.ltb_ge. rewrite EVENT_TIMESPAN_value. lia.
  - unfold timeElapsed, to_int. cbv zeta. rewrite !low_bits_of_ulong.
    replace (cur + k * 2 ^ int_bits iw - prev)
      with (cur - prev + k * 2 ^ int_bits iw) by ring.
    rewrite Z_mod_plus_full. reflexivity.
Qed.

(** * Reaching the next timing event *)

Lemma timeElapsed_no_wrap (iw : int_width) (cur prev : Z) :
  0 <= prev <= cur -> cur < ulong_modulus -> cur - prev <= INT_MAX iw ->
  timeElapsed iw cur prev = cur - prev.
Proof.
  intros Hp Hc Hd. unfold timeElapsed.
  rewrite to_ulong_small by lia. apply to_int_small. lia.
Qed.

Lemma INT_MAX_above_timespan (iw : int_width) : EVENT_TIMESPAN < INT_MAX iw.
Proof. destruct iw; reflexivity. Qed.

(** With the flag raised and the activation pin high, a poll that comes no
    later than [EVENT_TIMESPAN] after the last timing event does nothing. *)
Lemma early_poll_does_nothing (iw : int_width) (env : readings) (g : globals) :
  isMeatbagTranscribing g = 1 ->
  0 <= previousTimestamp g <= millis env ->
  millis env <= previousTimestamp g + EVENT_TIMESPAN ->
  millis env < ulong_modulus ->
  pins env PIN_MEATBAG_ACTIVATE = High ->
  loop iw env g = (g, []).
Proof.
  intros Hf Hp Hearly Hrange Hpin.
  pose proof (INT_MAX_above_timespan iw) as Hmax.
  assert (Hte : (EVENT_TIMESPAN <?
                 timeElapsed iw (to_ulong (millis env)) (previousTimestamp g)) = false).
  { rewrite to_ulong_small by lia.
    rewrite timeElapsed_no_wrap by lia. apply Z.ltb_ge. lia. }
  rewrite loop_unfold.
  assert (Hs : scheduler iw env g = (g, [])).
  { unfold scheduler, heartbeat_guard, probe_guard. cbv zeta. rewrite Hte.
    reflexivity. }
  rewrite Hs. cbn [fst snd]. rewrite (activation_flag_set _ _ Hf), Hpin.
  reflexivity.
Qed.

(** X9.  While the flag is raised and the activation pin stays high, polls
    that come within [EVENT_TIMESPAN] of the last timing event print
    nothing, however many there are, and the first poll that comes later
    (by no more than [INT_MAX]) prints exactly the event that is due, a
    heartbeat after a probe and a probe after a heartbeat, and restarts the
    interval at its own clock reading. *)
Theorem due_event_at_first_late_poll (iw : int_width) (g : globals)
  (early : list readings) (env : readings) :
  isMeatbagTranscribing g = 1 ->
  previousEvent g = MSG_EVENT_HEARTBEAT \/ previousEvent g = MSG_EVENT_PROBE ->
  0 <= previousTimestamp g ->
  Forall (fun e => previousTimestamp g <= millis e <= previousTimestamp g + EVENT_TIMESPAN
                   /\ pins e PIN_MEATBAG_ACTIVATE = High) early ->
  previousTimestamp g + EVENT_TIMESPAN < millis env <= previousTimestamp g + INT_MAX iw ->
  millis env < ulong_modulus ->
  pins env PIN_MEATBAG_ACTIVATE = High ->
  emitted iw g (early ++ [env]) =
    [if previousEvent g =? MSG_EVENT_PROBE then Heartbeat
     else Probe (digitalRead env PIN_MEATBAG_IN)] /\
  previousTimestamp (final iw g (early ++ [env])) = millis env /\
  isMeatbagTranscribing (final iw g (early ++ [env])) = 1.
Proof.
  intros Hf Hev Hp Hearly Hlate Hrange Hpin.
  pose proof EVENT_TIMESPAN_value as HE.
  assert (Hsilent : emitted iw g early = [] /\ final iw g early = g).
  { induction early as [| e rest IH]; [split; reflexivity |].
    inversion Hearly as [| e0 l0 Hhd Hrest]; subst.
    cbv beta in Hhd. destruct Hhd as [He Hepin].
    rewrite emitted_cons, final_cons.
    rewrite (early_poll_does_nothing iw e g Hf) by (try assumption; lia).
    cbn [fst snd app]. apply IH. exact Hrest. }
  destruct Hsilent as [Hout Hfin].
  rewrite emitted_app, final_app, Hout, Hfin. cbn [app].
  rewrite emitted_cons, final_cons. cbn [emitted run concat final fst snd].
  rewrite app_nil_r.
  assert (Hte : (EVENT_TIMESPAN <?
                 timeElapsed iw (to_ulong (millis env)) (previousTimestamp g)) = true).
  { rewrite to_ulong_small by lia.
    rewrite timeElapsed_no_wrap by lia. apply Z.ltb_lt. lia. }
  rewrite loop_unfold. cbn [fst snd].
  assert (Hs : scheduler iw env g =
               if previousEvent g =? MSG_EVENT_PROBE
               then (mkGlobals 1 (millis env) MSG_EVENT_HEARTBEAT, [Heartbeat])
               else (mkGlobals 1 (millis env) MSG_EVENT_PROBE,
                     [Probe (digitalRead env PIN_MEATBAG_IN)])).
  { unfold scheduler, heartbeat_guard, probe_guard. cbv zeta.
    rewrite Hte, Hf. rewrite (to_ulong_small (millis env)) by lia.
    destruct Hev as [-> | ->]; reflexivity. }
  rewrite Hs.
  destruct (previousEvent g =? MSG_EVENT_PROBE); cbn [fst snd];
    rewrite activation_flag_set by reflexivity; rewrite Hpin;
    repeat split.
Qed.

Lemma due_event_at_first_late_poll_witness :
  let g := mkGlobals 1 1000 MSG_EVENT_HEARTBEAT in
  let early := [poll 1001 High Low; poll 1060 High Low; poll 1125 High Low] in
  emitted W16 g (early ++ [poll 1126 High Low]) = [Probe 0] /\
  previousTimestamp (final W16 g (early ++ [poll 1126 High Low])) = 1126.
Proof.
  cbv zeta.
  assert (H := due_event_at_first_late_poll W16
                 (mkGlobals 1 1000 MSG_EVENT_HEARTBEAT)
                 [poll 1001 High Low; poll 1060 High Low; poll 1125 High Low]
                 (poll 1126 High Low)
                 eq_refl (or_introl eq_refl)).
  cbn [previousTimestamp millis poll pins] in H.
  assert (Hearly : Forall (fun e => 1000 <= millis e <= 1000 + EVENT_TIMESPAN
                                    /\ pins e PIN_MEATBAG_ACTIVATE = High)
                     [poll 1001 High Low; poll 1060 High Low; poll 1125 High Low]).
  { repeat constructor; cbn; try lia; discriminate. }
  specialize (H ltac:(lia) Hearly).
  assert (Hlate : 1000 + EVENT_TIMESPAN < 1126 <= 1000 + INT_MAX W16)
    by (cbn; lia).
  specialize (H Hlate eq_refl eq_refl).
  split; [exact (proj1 H) | exact (proj1 (proj2 H))].
Defined.

(** * Pins *)

(** X10.  A run of [loop()] depends on the pins only through the ones it
    reads: the activation pin in every poll, the signal pin only in a poll
    in which the probe branch fires.  Two sets of readings with the same
    clock value that agree on those pins give the same state and the same
    output. *)
Theorem loop_depends_on_pins_read (iw : int_width) (env env' : readings)
  (g : globals) :
  millis env' = millis env ->
  (forall p, In p (pins_read iw env g) -> pins env' p = pins env p) ->
  pins_read iw env' g = pins_read iw env g /\
  loop iw env' g = loop iw env g.
Proof.
  intros Hm Hpins.
  assert (Hh : heartbeat_guard iw env' g = heartbeat_guard iw env g)
    by (unfold heartbeat_guard; rewrite Hm; reflexivity).
  assert (Hp : probe_guard iw env' g = probe_guard iw env g)
    by (unfold probe_guard; rewrite Hm; reflexivity).
  assert (Hact : digitalRead env' PIN_MEATBAG_ACTIVATE = digitalRead env PIN_MEATBAG_ACTIVATE).
  { unfold digitalRead. rewrite Hpins; [reflexivity |].
    unfold pins_read. apply in_or_app. right. left. reflexivity. }
  split; [unfold pins_read; rewrite Hh, Hp; reflexivity |].
  assert (Hs : scheduler iw env' g = scheduler iw env g).
  { unfold scheduler. cbv zeta. rewrite Hh, Hp, Hm.
    destruct (heartbeat_guard iw env g) eqn:Eh; [reflexivity |].
    destruct (probe_guard iw env g) eqn:Ep; [| reflexivity].
    unfold digitalRead. rewrite Hpins; [reflexivity |].
    unfold pins_read. rewrite Eh, Ep. left. reflexivity. }
  unfold loop. rewrite Hs. destruct (scheduler iw env g) as [g1 out1].
  unfold activation. cbv zeta. rewrite Hact. reflexivity.
Qed.

Lemma loop_depends_on_pins_read_witness :
  loop W16 (poll 130 Low High) init = loop W16 (poll 130 Low Low) init.
Proof.
  refine (proj2 (loop_depends_on_pins_read W16 (poll 130 Low Low)
                   (poll 130 Low High) init eq_refl _)).
  intros p Hin. cbn in Hin. destruct Hin as [<- | []]. reflexivity.
Defined.

Lemma configured_mode_app (prior calls : list board_call) (pin : Z) (m : pin_mode) :
  configured_mode calls pin = Some m ->
  configured_mode (prior ++ calls) pin = Some m.
Proof.
  intros H. induction prior as [| c prior IH]; [exact H |].
  cbn [app configured_mode]. rewrite IH. reflexivity.
Qed.

Lemma configured_baud_app (prior calls : list board_call) (b : Z) :
  configured_baud calls = Some b ->
  configured_baud (prior ++ calls) = Some b.
Proof.
  intros H. induction prior as [| c prior IH]; [exact H |].
  cbn [app configured_baud]. rewrite IH. reflexivity.
Qed.

(** X11.  Whatever was configured before, after [setup()] the serial port
    runs at 9600 baud and every pin that a run of [loop()] reads, in any
    state and with any readings, is in [INPUT] mode; [setup()] configures
    no other pin. *)
Theorem setup_covers_pins_read (prior : list board_call) (iw : int_width)
  (env : readings) (g : globals) :
  configured_baud (prior ++ setup) = Some 9600 /\
  Forall (fun p => configured_mode (prior ++ setup) p = Some INPUT)
         (pins_read iw env g) /\
  forall p, configured_mode setup p <> None ->
            p = PIN_MEATBAG_IN \/ p = PIN_MEATBAG_ACTIVATE.
Proof.
  split; [apply configured_baud_app; reflexivity | split].
  - apply Forall_forall. intros p Hin.
    apply configured_mode_app.
    unfold pins_read in Hin. apply in_app_or in Hin.
    destruct Hin as [Hin | [<- | []]]; [| reflexivity].
    destruct (heartbeat_guard iw env g); [destruct Hin |].
    destruct (probe_guard iw env g); [| destruct Hin].
    destruct Hin as [<- | []]. reflexivity.
  - intros p Hp.
    destruct (Z.eq_dec PIN_MEATBAG_IN p) as [Heq | Hne2]; [left; congruence |].
    destruct (Z.eq_dec PIN_MEATBAG_ACTIVATE p) as [Heq | Hne3]; [right; congruence |].
    exfalso. apply Hp. cbn [setup configured_mode].
    apply Z.eqb_neq in Hne2. apply Z.eqb_neq in Hne3. rewrite Hne2, Hne3.
    reflexivity.
Qed.

(** * Moving the clock *)

Lemma timeElapsed_shift (iw : int_width) (m p c : Z) :
  timeElapsed iw (to_ulong (m + c)) (to_ulong (p + c)) =
  timeElapsed iw (to_ulong m) p.
Proof.
  unfold timeElapsed. f_equal. rewrite ulong_difference.
  unfold to_ulong. rewrite Zminus_mod_idemp_l. f_equal. ring.
Qed.

Lemma to_ulong_shift (m c : Z) : to_ulong (to_ulong m + c) = to_ulong (m + c).
Proof. unfold to_ulong. apply Zplus_mod_idemp_l. Qed.

Lemma scheduler_shift (iw : int_width) (c : Z) (env : readings) (g : globals) :
  scheduler iw (shift_clock c env) (shift_schedule c g) =
  (shift_schedule c (fst (scheduler iw env g)), snd (scheduler iw env g)).
Proof.
  assert (Hh : heartbeat_guard iw (shift_clock c env) (shift_schedule c g)
               = heartbeat_guard iw env g).
  { unfold heartbeat_guard. cbn [shift_clock shift_schedule millis previousTimestamp
                                  previousEvent].
    cbv zeta. rewrite timeElapsed_shift. reflexivity. }
  assert (Hp : probe_guard iw (shift_clock c env) (shift_schedule c g)
               = probe_guard iw env g).
  { unfold probe_guard. cbn [shift_clock shift_schedule millis previousTimestamp
                              previousEvent isMeatbagTranscribing].
    cbv zeta. rewrite timeElapsed_shift. reflexivity. }
  unfold scheduler. cbv zeta. rewrite Hh, Hp.
  destruct (heartbeat_guard iw env g); [| destruct (probe_guard iw env g)];
    unfold shift_schedule, shift_clock;
    cbn [fst snd millis pins previousTimestamp previousEvent isMeatbagTranscribing];
    rewrite ?to_ulong_shift; reflexivity.
Qed.

Lemma activation_shift (c : Z) (env : readings) (g : globals) :
  activation (shift_clock c env) (shift_schedule c g) =
  (shift_schedule c (fst (activation env g)), snd (activation env g)).
Proof.
  unfold activation, digitalRead.
  cbn [shift_clock shift_schedule pins isMeatbagTranscribing previousTimestamp
       previousEvent].
  cbv zeta.
  destruct (_ && _); [reflexivity |]. destruct (_ && _); reflexivity.
Qed.

Lemma loop_shift (iw : int_width) (c : Z) (env : readings) (g : globals) :
  loop iw (shift_clock c env) (shift_schedule c g) =
  (shift_schedule c (fst (loop iw env g)), snd (loop iw env g)).
Proof.
  rewrite (loop_unfold iw (shift_clock c env)), (loop_unfold iw env).
  rewrite scheduler_shift. cbn [fst snd]. rewrite activation_shift. reflexivity.
Qed.

(** X12.  Only differences of clock readings matter: moving every clock
    reading and the stored timestamp on by the same number of milliseconds
    leaves the output of a run unchanged and moves the final timestamp on
    by that number, in 32-bit wrapping arithmetic.  In particular a run is
    the same whether or not the counter wraps during it. *)
Theorem run_is_shift_invariant (iw : int_width) (c : Z) (polls : list readings)
  (g : globals) :
  emitted iw (shift_schedule c g) (map (shift_clock c) polls) = emitted iw g polls /\
  final iw (shift_schedule c g) (map (shift_clock c) polls) =
    shift_schedule c (final iw g polls).
Proof.
  revert g. induction polls as [| env rest IH]; intros g.
  - split; reflexivity.
  - cbn [map]. rewrite !emitted_cons, !final_cons, loop_shift. cbn [fst snd].
    destruct (IH (fst (loop iw env g))) as [-> ->]. split; reflexivity.
Qed.
